(** * PyAlgoMate: the straddle strategy's order-state machine

    A shallow embedding of [pyalgomate/strategies/StraddleStrategy.py]:
    the protection pricer (binary64 arithmetic as CPython performs it), the
    stop-loss schedule lookup, the pending-order tracker with its four
    callback handlers, the entry and exit coordinators and the phase
    recomputation, followed by the properties of the specification that
    were checked against them. *)

From Stdlib Require Import ZArith Lia Bool List Sorted.
From Stdlib Require Import SpecFloat.
From stdpp Require Import gmap list.

(** ** Python floats

    CPython's [float] is IEEE-754 binary64 with round-to-nearest, ties to
    even.  Every finite binary64 value is an integer multiple of
    [2^-1074], so a finite value is kept as that integer ([Fin n] stands
    for [n * 2^-1074]); the representable integers are those of the form
    [m * 2^s] with [|m| < 2^53] and below [2^2098] in magnitude.  The two
    signed zeros are identified (no operation of the strategy tells them
    apart). *)
Module PyFloat.

Local Open Scope Z_scope.

Inductive float : Type :=
| Fin (n : Z)
| Inf (neg : bool)
| NaN.

(** [1.0] counted in units of [2^-1074]. *)
Definition one_ulps : Z := 2 ^ 1074.

(** First magnitude that no longer fits: [2^1024], in units. *)
Definition overflow_ulps : Z := 2 ^ 2098.

(** Round the non-negative rational [a / b] (in units) to the nearest
    representable integer, ties to the even mantissa. Below [2^53] units
    the spacing is one unit (subnormals and the first binade); above, the
    spacing is [2^(log2 q - 52)]. *)
Definition rnd_pos (a b : Z) : Z :=
  let q := a / b in
  let u := 2 ^ Z.max 0 (Z.log2 q - 52) in
  let lo := (q / u) * u in
  let hi := lo + u in
  match 2 * a ?= b * (lo + hi) with
  | Lt => lo
  | Gt => hi
  | Eq => if Z.even (lo / u) then lo else hi
  end.

Definition rnd (a b : Z) : Z :=
  if a <? 0 then - rnd_pos (- a) b else rnd_pos a b.

(** Overflow turns into an infinity of the same sign. *)
Definition mk (n : Z) : float :=
  if overflow_ulps <=? Z.abs n then Inf (n <? 0) else Fin n.

(** The float nearest to the rational [a / b], [b > 0], given in units. *)
Definition round (a b : Z) : float := mk (rnd a b).

(** The float nearest to the rational [num / den], [den > 0]: a Python
    literal such as [0.05] is [of_ratio 5 100], an [int] operand [z] is
    converted as [of_Z z]. *)
Definition of_ratio (num den : Z) : float := round (num * one_ulps) den.
Definition of_Z (z : Z) : float := of_ratio z 1.

Definition opp (x : float) : float :=
  match x with
  | Fin n => Fin (- n)
  | Inf s => Inf (negb s)
  | NaN => NaN
  end.

Definition add (x y : float) : float :=
  match x, y with
  | NaN, _ | _, NaN => NaN
  | Inf s, Inf t => if Bool.eqb s t then Inf s else NaN
  | Inf s, Fin _ | Fin _, Inf s => Inf s
  | Fin a, Fin b => round (a + b) 1
  end.

Definition sub (x y : float) : float := add x (opp y).

Definition mul (x y : float) : float :=
  match x, y with
  | NaN, _ | _, NaN => NaN
  | Inf s, Inf t => Inf (xorb s t)
  | Inf s, Fin n | Fin n, Inf s =>
      if n =? 0 then NaN else Inf (xorb s (n <? 0))
  | Fin a, Fin b => round (a * b) one_ulps
  end.

(** [x / y]. Python raises [ZeroDivisionError] for a zero divisor; every
    divisor in the strategy is the literal [100.0], and the model returns
    [NaN] there. *)
Definition div (x y : float) : float :=
  match x, y with
  | NaN, _ | _, NaN => NaN
  | Inf _, Inf _ => NaN
  | Inf s, Fin n => Inf (xorb s (n <? 0))
  | Fin _, Inf _ => Fin 0
  | Fin a, Fin b =>
      if b =? 0 then NaN
      else if b <? 0 then round (- a * one_ulps) (- b)
      else round (a * one_ulps) b
  end.

(** C's [fmod]: exact, with the sign of the dividend. *)
Definition fmod (x y : float) : float :=
  match x, y with
  | NaN, _ | _, NaN => NaN
  | Inf _, _ => NaN
  | Fin a, Inf _ => Fin a
  | Fin a, Fin b => if b =? 0 then NaN else Fin (Z.rem a b)
  end.

Definition is_neg (x : float) : bool :=
  match x with
  | Fin n => n <? 0
  | Inf s => s
  | NaN => false
  end.

Definition is_zero (x : float) : bool :=
  match x with
  | Fin n => n =? 0
  | _ => false
  end.

(** Python's [x % y] on floats ([float_rem] of CPython): [fmod], then a
    non-zero remainder whose sign differs from the divisor's has the
    divisor added to it (a rounded addition).  A zero divisor raises
    [ZeroDivisionError] in Python; the tick size is the constant [0.05]
    and the model returns [NaN] there. *)
Definition rem (x y : float) : float :=
  let m := fmod x y in
  match m with
  | NaN => NaN
  | _ =>
      if is_zero m then Fin 0
      else if negb (Bool.eqb (is_neg y) (is_neg m)) then add m y
      else m
  end.

(** Comparisons: every comparison with [NaN] is false. *)
Definition ltb (x y : float) : bool :=
  match x, y with
  | NaN, _ | _, NaN => false
  | Fin a, Fin b => a <? b
  | Inf s, Inf t => s && negb t
  | Inf s, Fin _ => s
  | Fin _, Inf t => negb t
  end.

Definition eqb (x y : float) : bool :=
  match x, y with
  | Fin a, Fin b => a =? b
  | Inf s, Inf t => Bool.eqb s t
  | _, _ => false
  end.


(** The integers that are binary64 values: at most 53 significant bits
    (the exponent range is enforced by [mk]). *)
Definition representable (n : Z) : Prop :=
  exists m s : Z, 0 <= s /\ Z.abs m < 2 ^ 53 /\ n = m * 2 ^ s.

(** *** Agreement with the standard library's IEEE-754 specification *)

Definition to_SF (x : float) : spec_float :=
  match x with
  | Fin n => binary_normalize 53 1024 n (-1074) false
  | Inf s => S754_infinity s
  | NaN => S754_nan
  end.

Definition of_SF (x : spec_float) : float :=
  match x with
  | S754_zero _ => Fin 0
  | S754_infinity s => Inf s
  | S754_nan => NaN
  | S754_finite s m e =>
      let v := Z.pos m * 2 ^ (e + 1074) in
      Fin (if s then - v else v)
  end.

End PyFloat.

Abbreviation float := PyFloat.float.

(** ** Data model *)

(** [datetime.time]: compared field by field, hour first. *)
Record time : Type := mkTime {
  hour : nat;
  minute : nat;
  second : nat;
  microsecond : nat
}.

Definition hm (h m : nat) : time := mkTime h m 0 0.

Definition time_ltb (a b : time) : bool :=
  (hour a <? hour b)%nat
  || ((hour a =? hour b)%nat
      && ((minute a <? minute b)%nat
          || ((minute a =? minute b)%nat
              && ((second a <? second b)%nat
                  || ((second a =? second b)%nat
                      && (microsecond a <? microsecond b)%nat))))).

(** [a >= b] on times. *)
Definition time_geb (a b : time) : bool := negb (time_ltb a b).

(** [pyalgomate.core.State]. *)
Inductive State : Type :=
| LIVE
| PLACING_ORDERS
| ENTERED
| SQUARING_OFF
| EXITED.

#[global] Instance State_eq_dec : EqDecision State.
Proof. solve_decision. Defined.

(** [Order.Action], as far as the strategy distinguishes it. *)
Inductive Action : Type := BUY | SELL.

Inductive OptionType : Type := Call | Put.

(** What [getOptionSymbol(underlying, expiry, strike, type)] resolves; the
    underlying and the expiry are fixed during one entry. *)
Record Symbol : Type := mkSymbol {
  symbolStrike : Z;
  symbolType : OptionType
}.

(** A [Position] object is known by its identity: the broker hands out a
    new one for every entry order. A Python variable that may hold [None]
    instead of a position is an [option Leg]. *)
Definition Leg : Type := nat.

(** [class StraddlePosition]. *)
Record StraddlePosition : Type := mkStraddlePosition {
  ceHedge : option Leg;
  peHedge : option Leg;
  ceShort : option Leg;
  peShort : option Leg;
  strike : Z
}.

(** The calls the strategy makes on the broker and on its positions. *)
Inductive BrokerCall : Type :=
| EnterLongLimit (symbol : Symbol) (limitPrice : float) (quantity : Z)
| EnterShortLimit (symbol : Symbol) (limitPrice : float) (quantity : Z)
| ExitStopLimit (position : Leg) (stopPrice limitPrice : float)
| ExitLimit (position : Leg) (limitPrice : float)
| CancelExit (position : Leg).

(** The attributes [__init__] sets once. *)
Record Config : Type := mkConfig {
  exitTime : time;
  marketStartTime : time;
  marketEndTime : time;
  strikeDifference : Z;
  quantity : Z;
  stopLimitBufferPercentage : Z;
  marketProtectionPercentage : float;
  tickSize : float;
  maxEntries : nat;
  hedgesNStrikesAway : Z;
  stopLosses : list (time * Z)
}.

(** The dictionary literal of [__init__], in its insertion order. *)
Definition stopLossesTable : list (time * Z) :=
  [ (hm 9 15, 40); (hm 9 30, 40); (hm 9 45, 40); (hm 10 0, 40);
    (hm 10 15, 40); (hm 10 30, 45); (hm 10 45, 50); (hm 11 0, 50);
    (hm 11 15, 50); (hm 11 30, 50); (hm 11 45, 50); (hm 12 0, 50);
    (hm 12 15, 50); (hm 12 30, 50); (hm 12 45, 50); (hm 13 0, 60);
    (hm 13 15, 70); (hm 13 30, 80); (hm 13 45, 90); (hm 14 0, 100);
    (hm 14 15, 100); (hm 14 30, 100); (hm 14 45, 100) ]%Z.

(** [__init__]: the strike increment and the lot size come from the
    broker, the market hours from the base class. *)
Definition initConfig (strikeDiff lotSize lots : Z) (mStart mEnd : time)
  : Config :=
  {| exitTime := hm 15 24;
     marketStartTime := mStart;
     marketEndTime := mEnd;
     strikeDifference := strikeDiff;
     quantity := (lotSize * lots)%Z;
     stopLimitBufferPercentage := 15;
     marketProtectionPercentage := PyFloat.of_Z 15;
     tickSize := PyFloat.of_ratio 5 100;
     maxEntries := 3;
     hedgesNStrikesAway := 8;
     stopLosses := stopLossesTable |}.

(** What the feed and the broker answer while one operation runs. *)
Record World : Type := mkWorld {
  now : time;
  atmStrike : option Z;
  lastBarClose : Symbol -> option float;
  activePositions : list Leg;
  closedPositions : list Leg;
  instrument : Leg -> Symbol;
  entryIsBuy : Leg -> bool;
  entryPrice : Leg -> float;
  exitActive : Leg -> bool;
  exitFilled : Leg -> bool;
  pendingOrdersCompleted : bool
}.

(** The mutable attributes of the strategy object, together with the
    broker's side of its calls: the next position identity it will hand
    out and the calls received so far (latest last). [enterCalls] is a
    ghost counter of the invocations of [enterPositions]. *)
Record Strategy : Type := mkStrategy {
  state : State;
  pendingEntry : gset (option Leg);
  pendingSLToCost : gset (option Leg);
  pendingCancelExit : gset (option Leg);
  pendingExit : gset (option Leg);
  positions : list (option StraddlePosition);
  nextLeg : Leg;
  orders : list BrokerCall;
  enterCalls : nat
}.

Definition set_state (v : State) (s : Strategy) : Strategy :=
  mkStrategy v (pendingEntry s) (pendingSLToCost s) (pendingCancelExit s)
    (pendingExit s) (positions s) (nextLeg s) (orders s) (enterCalls s).
Definition set_pendingEntry (v : gset (option Leg)) (s : Strategy) : Strategy :=
  mkStrategy (state s) v (pendingSLToCost s) (pendingCancelExit s)
    (pendingExit s) (positions s) (nextLeg s) (orders s) (enterCalls s).
Definition set_pendingSLToCost (v : gset (option Leg)) (s : Strategy) : Strategy :=
  mkStrategy (state s) (pendingEntry s) v (pendingCancelExit s)
    (pendingExit s) (positions s) (nextLeg s) (orders s) (enterCalls s).
Definition set_pendingCancelExit (v : gset (option Leg)) (s : Strategy) : Strategy :=
  mkStrategy (state s) (pendingEntry s) (pendingSLToCost s) v
    (pendingExit s) (positions s) (nextLeg s) (orders s) (enterCalls s).
Definition set_pendingExit (v : gset (option Leg)) (s : Strategy) : Strategy :=
  mkStrategy (state s) (pendingEntry s) (pendingSLToCost s)
    (pendingCancelExit s) v (positions s) (nextLeg s) (orders s) (enterCalls s).
Definition set_positions (v : list (option StraddlePosition)) (s : Strategy)
  : Strategy :=
  mkStrategy (state s) (pendingEntry s) (pendingSLToCost s)
    (pendingCancelExit s) (pendingExit s) v (nextLeg s) (orders s)
    (enterCalls s).

(** Modelled from the spec: the phase that the base class's [reset] (not
    part of the strategy's file) leaves behind. The session boundary "forces
    a full reset of phase", and [LIVE] is the phase that is "ready to
    enter". *)
Definition baseResetState : State := LIVE.

(** [__reset__]. The broker's identities and call log are not the
    strategy's and are kept. *)
Definition reset (s : Strategy) : Strategy :=
  mkStrategy baseResetState ∅ ∅ ∅ ∅ [] (nextLeg s) (orders s) 0.

(** The strategy right after [__init__]. *)
Definition initial : Strategy :=
  mkStrategy baseResetState ∅ ∅ ∅ ∅ [] 0 [] 0.

(** ** Effects

    A method runs on the strategy object and either returns or raises;
    what it changed before raising stays changed. *)
Inductive Exn : Type := AttributeError.

Inductive Result (A : Type) : Type :=
| Returned (a : A)
| Raised (e : Exn).
Arguments Returned {A} a.
Arguments Raised {A} e.

Definition M (A : Type) : Type := Strategy -> Result A * Strategy.

#[global] Instance M_ret : MRet M := fun A a s => (Returned a, s).
#[global] Instance M_bind : MBind M := fun A B f c s =>
  match c s with
  | (Returned a, s') => f a s'
  | (Raised e, s') => (Raised e, s')
  end.

Definition raise {A} (e : Exn) : M A := fun s => (Raised e, s).
Definition get : M Strategy := fun s => (Returned s, s).
Definition modify (f : Strategy -> Strategy) : M unit :=
  fun s => (Returned tt, f s).

(** [try: c except Exception: log]. *)
Definition try_except (c : M unit) : M unit := fun s =>
  match c s with
  | (Returned a, s') => (Returned a, s')
  | (Raised _, s') => (Returned tt, s')
  end.

(** The strategy after running [c], whether it returned or raised. *)
Definition exec {A} (c : M A) (s : Strategy) : Strategy := snd (c s).

(** A call on the broker or on a position, recorded in arrival order. *)
Definition call (c : BrokerCall) : M unit :=
  modify (fun s =>
    mkStrategy (state s) (pendingEntry s) (pendingSLToCost s)
      (pendingCancelExit s) (pendingExit s) (positions s) (nextLeg s)
      (orders s ++ [c]) (enterCalls s)).

(** [enterLongLimit] / [enterShortLimit] return a new position. *)
Definition newPosition (c : BrokerCall) : M Leg :=
  s ← get;
  modify (fun s =>
    mkStrategy (state s) (pendingEntry s) (pendingSLToCost s)
      (pendingCancelExit s) (pendingExit s) (positions s) (S (nextLeg s))
      (orders s ++ [c]) (enterCalls s));;
  mret (nextLeg s).

Definition countEnter : M unit :=
  modify (fun s =>
    mkStrategy (state s) (pendingEntry s) (pendingSLToCost s)
      (pendingCancelExit s) (pendingExit s) (positions s) (nextLeg s)
      (orders s) (S (enterCalls s))).

(** Python's [set.add] and [set.discard]. *)
Definition py_add (x : option Leg) (X : gset (option Leg)) : gset (option Leg) :=
  {[ x ]} ∪ X.
Definition py_discard (x : option Leg) (X : gset (option Leg))
  : gset (option Leg) := X ∖ {[ x ]}.

(** [self.positions.add(v)]: a [StraddlePosition] object is always a new
    element (objects are compared by identity), [None] is one element
    however often it is added. The list keeps insertion order. *)
Definition positions_add (v : option StraddlePosition)
    (l : list (option StraddlePosition)) : list (option StraddlePosition) :=
  match v with
  | Some _ => l ++ [v]
  | None => if existsb (fun x => bool_decide (x = None)) l then l
            else l ++ [None]
  end.

(** ** The protection pricer *)

Section Pricer.
Import PyFloat.

(** [getRoundedOffPriceByTickSize]: [price - (price % self.tickSize)]. *)
Definition getRoundedOffPriceByTickSize (tick price : float) : float :=
  sub price (rem price tick).

(** [price * (1 + (pct / 100.0))] and [price * (1 - (pct / 100.0))]. *)
Definition protectedUp (pct price : float) : float :=
  mul price (add (of_Z 1) (div pct (of_Z 100))).
Definition protectedDown (pct price : float) : float :=
  mul price (sub (of_Z 1) (div pct (of_Z 100))).

(** The limit price of [enterWithMarketProtection]. *)
Definition entryLimitPrice (tick pct : float) (action : Action)
    (close : float) : float :=
  match action with
  | BUY => getRoundedOffPriceByTickSize tick (protectedUp pct close)
  | SELL => getRoundedOffPriceByTickSize tick (protectedDown pct close)
  end.

(** The limit price of [exitWithMarketProtection]. *)
Definition exitLimitPrice (tick pct : float) (entryBuy : bool)
    (close : float) : float :=
  if entryBuy
  then getRoundedOffPriceByTickSize tick (protectedDown pct close)
  else getRoundedOffPriceByTickSize tick (protectedUp pct close).

(** [x - (x % 0.05)], with the literal of the handlers. *)
Definition floor005 (x : float) : float := sub x (rem x (of_ratio 5 100)).
End Pricer.

(** ** The stop-loss schedule *)

(** Lines 267-268 of [onEnterOk]: the values of the entries whose time is
    before [t], in dictionary order; the last of them, or 20. *)
Definition stopLossPercentage (table : list (time * Z)) (t : time) : Z :=
  let stopLossesList :=
    map snd (List.filter (fun kv => time_ltb (fst kv) t) table) in
  List.last stopLossesList 20%Z.

(** ** The strategy's methods *)

(** [for x in l: body(x)]. *)
Fixpoint for_each {A} (l : list A) (body : A -> M unit) : M unit :=
  match l with
  | [] => mret tt
  | x :: l' => body x;; for_each l' body
  end.

(** [len(X)] used as a condition. *)
Definition nonempty (X : gset (option Leg)) : bool :=
  bool_decide (size X ≠ 0%nat).

Section Methods.
Variable cfg : Config.
Variable w : World.

Definition enterWithMarketProtection (symbol : Symbol) (action : Action)
  : M (option Leg) :=
  match lastBarClose w symbol with
  | None => mret None
  | Some close =>
      let limitPrice :=
        entryLimitPrice (tickSize cfg) (marketProtectionPercentage cfg)
          action close in
      match action with
      | BUY =>
          p ← newPosition (EnterLongLimit symbol limitPrice (quantity cfg));
          mret (Some p)
      | SELL =>
          p ← newPosition (EnterShortLimit symbol limitPrice (quantity cfg));
          mret (Some p)
      end
  end.

Definition enterPositions : M (option StraddlePosition) :=
  countEnter;;
  match atmStrike w with
  | None => mret None
  | Some atm =>
      let away := (hedgesNStrikesAway cfg * strikeDifference cfg)%Z in
      let ceHedgeSymbol := mkSymbol (atm + away) Call in
      let ceShortSymbol := mkSymbol atm Call in
      let peHedgeSymbol := mkSymbol (atm - away) Put in
      let peShortSymbol := mkSymbol atm Put in
      modify (set_state PLACING_ORDERS);;
      ceHedgePosition ← enterWithMarketProtection ceHedgeSymbol BUY;
      peHedgePosition ← enterWithMarketProtection peHedgeSymbol BUY;
      ceShortPosition ← enterWithMarketProtection ceShortSymbol SELL;
      peShortPosition ← enterWithMarketProtection peShortSymbol SELL;
      modify (fun s =>
        set_pendingEntry (py_add ceHedgePosition (pendingEntry s)) s);;
      modify (fun s =>
        set_pendingEntry (py_add peHedgePosition (pendingEntry s)) s);;
      modify (fun s =>
        set_pendingEntry (py_add ceShortPosition (pendingEntry s)) s);;
      modify (fun s =>
        set_pendingEntry (py_add peShortPosition (pendingEntry s)) s);;
      mret (Some (mkStraddlePosition ceHedgePosition peHedgePosition
                    ceShortPosition peShortPosition atm))
  end.

(** The trigger is the constant [True] of the source. *)
Definition onResampledBars : M unit :=
  try_except (
    s ← get;
    if (length (positions s) =? maxEntries cfg)%nat then mret tt
    else
      group ← enterPositions;
      modify (fun s => set_positions (positions_add group (positions s)) s)).

Definition exitWithMarketProtection (position : Leg) : M unit :=
  match lastBarClose w (instrument w position) with
  | None => mret tt
  | Some close =>
      call (ExitLimit position
              (exitLimitPrice (tickSize cfg) (marketProtectionPercentage cfg)
                 (entryIsBuy w position) close))
  end.

(** The body of the loop of [closeAllPositions]. *)
Definition closePosition (position : Leg) : M unit :=
  if exitActive w position then
    modify (fun s =>
      set_pendingCancelExit
        (py_add (Some position) (pendingCancelExit s)) s);;
    modify (fun s =>
      set_pendingExit (py_add (Some position) (pendingExit s)) s);;
    call (CancelExit position)
  else
    modify (fun s =>
      set_pendingExit (py_add (Some position) (pendingExit s)) s);;
    exitWithMarketProtection position.

Definition closeAllPositions : M unit :=
  modify (set_state SQUARING_OFF);;
  for_each (activePositions w) closePosition.

(** [position in [straddlePosition.ceShort, straddlePosition.peShort]]. *)
Definition isShortLegOf (position : Leg) (sp : StraddlePosition) : bool :=
  bool_decide (Some position = ceShort sp)
  || bool_decide (Some position = peShort sp).

(** The list comprehension of [getStraddlePosition]: reading [.ceShort]
    of a [None] element raises. *)
Fixpoint straddlesOf (position : Leg) (l : list (option StraddlePosition))
  : Result (list StraddlePosition) :=
  match l with
  | [] => Returned []
  | None :: _ => Raised AttributeError
  | Some sp :: l' =>
      match straddlesOf position l' with
      | Returned r =>
          Returned (if isShortLegOf position sp then sp :: r else r)
      | Raised e => Raised e
      end
  end.

Definition getStraddlePosition (position : Leg)
  : M (option StraddlePosition) :=
  s ← get;
  match straddlesOf position (positions s) with
  | Returned straddlePositions => mret (head straddlePositions)
  | Raised e => raise e
  end.

(** [(100 + self.stopLimitBufferPercentage) / 100.0]. *)
Definition bufferFactor : float :=
  PyFloat.div (PyFloat.of_Z (100 + stopLimitBufferPercentage cfg))
    (PyFloat.of_Z 100).

(** The base class's handlers, called first by each of the four
    callbacks, are not under the strategy's file and touch none of its
    attributes. *)
Definition onEnterOk (position : Leg) : M unit :=
  modify (fun s =>
    set_pendingEntry (py_discard (Some position) (pendingEntry s)) s);;
  straddlePosition ← getStraddlePosition position;
  match straddlePosition with
  | None => mret tt
  | Some _ =>
      let pct := stopLossPercentage (stopLosses cfg) (now w) in
      let stopLoss :=
        PyFloat.mul (entryPrice w position)
          (PyFloat.add (PyFloat.of_Z 1)
             (PyFloat.div (PyFloat.of_Z pct) (PyFloat.of_Z 100))) in
      let stopLoss := floor005 stopLoss in
      let stopLossBuffer := PyFloat.mul stopLoss bufferFactor in
      let stopLossBuffer := floor005 stopLossBuffer in
      call (ExitStopLimit position stopLoss stopLossBuffer)
  end.

Definition onEnterCanceled (position : Leg) : M unit :=
  modify (fun s =>
    set_pendingEntry (py_discard (Some position) (pendingEntry s)) s).

(** [self.state = PLACING_ORDERS if self.state != SQUARING_OFF else
    self.state]. *)
Definition placingUnlessSquaringOff (s : Strategy) : Strategy :=
  set_state
    (if bool_decide (state s ≠ SQUARING_OFF) then PLACING_ORDERS
     else state s) s.

Definition onExitCanceled (position : Leg) : M unit :=
  modify (fun s =>
    set_pendingCancelExit
      (py_discard (Some position) (pendingCancelExit s)) s);;
  s ← get;
  if bool_decide (Some position ∈ pendingSLToCost s) then
    let entryPrice := floor005 (entryPrice w position) in
    let stopLossBuffer := PyFloat.mul entryPrice bufferFactor in
    let stopLossBuffer := floor005 stopLossBuffer in
    modify placingUnlessSquaringOff;;
    call (ExitStopLimit position entryPrice stopLossBuffer);;
    modify (fun s =>
      set_pendingSLToCost
        (py_discard (Some position) (pendingSLToCost s)) s)
  else if bool_decide (Some position ∈ pendingExit s) then
    modify placingUnlessSquaringOff;;
    exitWithMarketProtection position
  else mret tt.

Definition onExitOk (position : Leg) : M unit :=
  modify (fun s =>
    set_pendingExit (py_discard (Some position) (pendingExit s)) s);;
  s ← get;
  if bool_decide (state s = SQUARING_OFF) then mret tt
  else
    straddlePosition ← getStraddlePosition position;
    match straddlePosition with
    | None => mret tt
    | Some sp =>
        let otherPosition :=
          if bool_decide (Some position ≠ ceShort sp) then ceShort sp
          else peShort sp in
        match otherPosition with
        | None => raise AttributeError
        | Some other =>
            if exitFilled w other then mret tt
            else if exitActive w other then
              modify (set_state PLACING_ORDERS);;
              modify (fun s =>
                set_pendingSLToCost
                  (py_add (Some other) (pendingSLToCost s)) s);;
              call (CancelExit other)
            else mret tt
        end
    end.

Definition handlePlacingOrders : M unit :=
  s ← get;
  if nonempty (pendingEntry s) || nonempty (pendingSLToCost s)
     || nonempty (pendingCancelExit s) || nonempty (pendingExit s)
  then mret tt
  else if negb (pendingOrdersCompleted w) then mret tt
  else if bool_decide (state s = SQUARING_OFF)
          && time_geb (now w) (exitTime cfg)
  then modify (set_state EXITED)
  else if (length (activePositions w) =? 0)%nat
  then modify (set_state LIVE)
  else modify (set_state ENTERED).

(** [strategyLogic] from the phase check on. The block before it only
    schedules the periodic report ([lastSentTime], [sendInfo]); the
    [finally] clause hands the bars to the resampler, whose callback is
    [onResampledBars]. *)
Definition strategyLogic : M unit :=
  try_except (
    s ← get;
    (if bool_decide (state s = PLACING_ORDERS)
        || bool_decide (state s = SQUARING_OFF)
     then handlePlacingOrders else mret tt);;
    if time_geb (now w) (marketEndTime cfg) then
      if (0 <? length (activePositions w) + length (closedPositions w))%nat
      then modify reset
      else mret tt
    else if time_geb (now w) (exitTime cfg) then
      s ← get;
      if bool_decide (state s = ENTERED) then closeAllPositions
      else mret tt
    else mret tt).
End Methods.

(** ** The event loop

    One thread runs the driver's tick, the resampler's callback and the
    broker's four callbacks, one at a time and in any order. *)
Inductive Event : Type :=
| EvStrategyLogic
| EvResampledBars
| EvCloseAllPositions
| EvEnterOk (position : Leg)
| EvEnterCanceled (position : Leg)
| EvExitOk (position : Leg)
| EvExitCanceled (position : Leg).

Definition handler (cfg : Config) (w : World) (ev : Event) : M unit :=
  match ev with
  | EvStrategyLogic => strategyLogic cfg w
  | EvResampledBars => onResampledBars cfg w
  | EvCloseAllPositions => closeAllPositions cfg w
  | EvEnterOk p => onEnterOk cfg w p
  | EvEnterCanceled p => onEnterCanceled p
  | EvExitOk p => onExitOk w p
  | EvExitCanceled p => onExitCanceled cfg w p
  end.

Definition run (cfg : Config) (ev : Event) (w : World) (s : Strategy)
  : Strategy := exec (handler cfg w ev) s.

Fixpoint runs (cfg : Config) (tr : list (Event * World)) (s : Strategy)
  : Strategy :=
  match tr with
  | [] => s
  | (ev, w) :: tr' => runs cfg tr' (run cfg ev w s)
  end.

(** The states reached from [initial] by events that [ok] admits. *)
Inductive reachable (cfg : Config)
    (ok : Strategy -> Event -> World -> Prop) : Strategy -> Prop :=
| reachable_initial : reachable cfg ok initial
| reachable_step s ev w :
    reachable cfg ok s -> ok s ev w -> reachable cfg ok (run cfg ev w s).

(** ** Notions used by the properties *)

(** What the strategy itself keeps: the phase, the four pending sets and
    the groups (the broker's call log and the counters left out). *)
Definition tracker (s : Strategy) :=
  (state s, pendingEntry s, pendingSLToCost s, pendingCancelExit s,
   pendingExit s, positions s).

(** The two phases in which the driver polls the tracker. *)
Definition pending_phase (st : State) : Prop :=
  st = PLACING_ORDERS \/ st = SQUARING_OFF.

Definition all_drained (s : Strategy) : Prop :=
  pendingEntry s = ∅ /\ pendingSLToCost s = ∅ /\ pendingCancelExit s = ∅
  /\ pendingExit s = ∅.

(** The transition rule in the specification's words: [EXITED] if the
    phase was [SQUARING_OFF] at or past the exit deadline, else [LIVE] if no
    leg is active, else [ENTERED]. *)
Definition transition_rule (cfg : Config) (w : World) (old : State) : State :=
  if bool_decide (old = SQUARING_OFF) && time_geb (now w) (exitTime cfg)
  then EXITED
  else match activePositions w with
       | [] => LIVE
       | _ :: _ => ENTERED
       end.

(** Admission predicates for [reachable]. *)
Definition any_event (s : Strategy) (ev : Event) (w : World) : Prop := True.

(** The coordinators and the four callbacks, without the driver's tick. *)
Definition coordinators_and_callbacks (s : Strategy) (ev : Event) (w : World)
  : Prop := ev <> EvStrategyLogic.

(** The events as the program raises them: [closeAllPositions] runs only
    from inside [strategyLogic]. *)
Definition driven (s : Strategy) (ev : Event) (w : World) : Prop :=
  ev <> EvCloseAllPositions.

(** Within one session the tick comes before the market's end (at the
    end it resets the strategy for the next session). *)
Definition in_session (cfg : Config) (ev : Event) (w : World) : Prop :=
  match ev with
  | EvStrategyLogic => time_ltb (now w) (marketEndTime cfg) = true
  | _ => True
  end.

(** The other short leg of the pair, as [onExitOk] selects it. *)
Definition otherShort (position : Leg) (sp : StraddlePosition) : option Leg :=
  if bool_decide (Some position ≠ ceShort sp) then ceShort sp else peShort sp.

(** The strategy after the broker accepted the orders [log] and handed
    out the identities below [n]; the tracker is untouched. *)
Definition submitted (s : Strategy) (n : Leg) (log : list BrokerCall)
  : Strategy :=
  mkStrategy (state s) (pendingEntry s) (pendingSLToCost s)
    (pendingCancelExit s) (pendingExit s) (positions s) n
    (orders s ++ log) (enterCalls s).

(** The identities a group holds were handed out during its entry. *)
Definition legs_between (lo hi : Leg) (sp : StraddlePosition) : Prop :=
  forall x p, x ∈ [ceHedge sp; peHedge sp; ceShort sp; peShort sp] ->
    x = Some p -> (lo <= p < hi)%nat.

(** Keys strictly increasing in dictionary order. *)
Definition increasing (table : list (time * Z)) : Prop :=
  StronglySorted (fun x y => time_ltb (fst x) (fst y) = true) table.

(** ** Scenarios *)

Definition cfg0 : Config := initConfig 50 25 1 (hm 9 15) (hm 15 30).

Definition price100 : float := PyFloat.of_Z 100.

(** A feed and broker snapshot: the time, the ATM strike, the bars, the
    active positions and those whose exit order is live; every bar closes
    at 100 and every entry was filled at 100. *)
Definition snapshot (t : time) (atm : option Z)
    (bars : Symbol -> option float) (active : list Leg)
    (exitLive : Leg -> bool) : World :=
  mkWorld t atm bars active [] (fun _ => mkSymbol 20000 Call)
    (fun _ => false) (fun _ => price100) exitLive (fun _ => false) true.

Definition allBars (sym : Symbol) : option float := Some price100.

(** No bar yet for the call hedge, eight strikes above 20000. *)
Definition noCallHedgeBar (sym : Symbol) : option float :=
  if bool_decide (symbolStrike sym = 20400%Z) then None else Some price100.

Definition quiet : World :=
  snapshot (hm 10 0) (Some 20000%Z) allBars [] (fun _ => false).

Definition noStrike : World :=
  snapshot (hm 10 0) None allBars [] (fun _ => false).

Definition callHedgeMissing : World :=
  snapshot (hm 10 0) (Some 20000%Z) noCallHedgeBar [] (fun _ => false).

(** Both short legs (2 and 3) have their stop live; 0 and 1 are the
    hedges. *)
Definition stopsLive (t : time) (active : list Leg) : World :=
  snapshot t (Some 20000%Z) allBars active
    (fun p => bool_decide (p = 2%nat) || bool_decide (p = 3%nat)).

(** One group entered and its short legs confirmed. *)
Definition shortsConfirmed : list (Event * World) :=
  [ (EvResampledBars, quiet); (EvEnterOk 2, quiet); (EvEnterOk 3, quiet) ].

(** Leg 2 is stopped out while leg 3's stop is live; then everything is
    closed. *)
Definition stopThenClose : list (Event * World) :=
  shortsConfirmed
  ++ [ (EvExitOk 2, stopsLive (hm 11 0) [0; 1; 3]%nat);
       (EvCloseAllPositions, stopsLive (hm 11 0) [0; 1; 3]%nat) ].

(** The same overlap as the program itself runs it: the group settles,
    the tick at the exit time closes everything, a further group is
    entered while the cancels are in flight, and leg 2's stop fills before
    its cancel is confirmed. *)
Definition squareOff : list (Event * World) :=
  shortsConfirmed
  ++ [ (EvEnterOk 0, quiet); (EvEnterOk 1, quiet);
       (EvStrategyLogic, stopsLive (hm 10 1) [0; 1; 2; 3]%nat);
       (EvStrategyLogic, stopsLive (hm 15 24) [0; 1; 2; 3]%nat) ].

Definition overlapWhileSquaringOff : list (Event * World) :=
  squareOff
  ++ [ (EvResampledBars, stopsLive (hm 15 25) [0; 1; 2; 3]%nat);
       (EvExitOk 2, stopsLive (hm 15 25) [0; 1; 3]%nat) ].

(** Four triggers while the ATM strike is unavailable. *)
Definition fourTriggersNoStrike : list (Event * World) :=
  [ (EvResampledBars, noStrike); (EvResampledBars, noStrike);
    (EvResampledBars, noStrike); (EvResampledBars, noStrike) ].

(** The events of a trace are admitted one after the other. *)
Fixpoint admitted (cfg : Config) (ok : Strategy -> Event -> World -> Prop)
    (tr : list (Event * World)) (s : Strategy) : Prop :=
  match tr with
  | [] => True
  | (ev, w) :: tr' => ok s ev w /\ admitted cfg ok tr' (run cfg ev w s)
  end.

(** Three triggers with every bar available. *)
Definition threeEntries : list (Event * World) :=
  [ (EvResampledBars, quiet); (EvResampledBars, quiet);
    (EvResampledBars, quiet) ].

(** A second delivery of [ev] right after the first changes nothing the
    strategy tracks, and ends as the first did. *)
Definition same_after_redelivery (cfg : Config) (w : World) (s : Strategy)
    (ev : Event) : Prop :=
  tracker (run cfg ev w (run cfg ev w s)) = tracker (run cfg ev w s)
  /\ fst (handler cfg w ev (run cfg ev w s)) = fst (handler cfg w ev s).

(** The spacing of the binary64 values around [q] units, and the value at
    or just below [q]. *)
Definition spacing (q : Z) : Z := (2 ^ Z.max 0 (Z.log2 q - 52))%Z.
Definition below (q : Z) : Z := (q / spacing q * spacing q)%Z.

(** The states and snapshots the scenarios lead to. *)
Definition afterShortsConfirmed : Strategy := runs cfg0 shortsConfirmed initial.
Definition afterSquareOff : Strategy := runs cfg0 squareOff initial.
Definition afterStopThenClose : Strategy := runs cfg0 stopThenClose initial.
Definition afterFirstEntry : Strategy := run cfg0 EvResampledBars quiet initial.
Definition stopsLiveAt1100 : World := stopsLive (hm 11 0) [0; 1; 3]%nat.
Definition stopsLiveAt1525 : World := stopsLive (hm 15 25) [0; 1; 2; 3]%nat.

(** The literals [0.05], [100.0], [15.01] and [15.02] in units of
    [2^-1074]. *)
Definition tick005 : Z := (3602879701896397 * 2 ^ 1018)%Z.
Definition close100 : Z := (100 * 2 ^ 1074)%Z.
Definition pct1501 : Z := (8449878800853893 * 2 ^ 1025)%Z.
Definition pct1502 : Z := (4227754150194053 * 2 ^ 1026)%Z.

(** The orders [closeAllPositions] is to submit for the active positions
    [l]: a cancel for a position whose exit order is live; otherwise a
    protected exit if its instrument has a last bar, and nothing if not. *)
Definition closeOrders (cfg : Config) (w : World) (l : list Leg)
  : list BrokerCall :=
  flat_map (fun p =>
    if exitActive w p then [CancelExit p]
    else match lastBarClose w (instrument w p) with
         | None => []
         | Some close =>
             [ExitLimit p
                (exitLimitPrice (tickSize cfg) (marketProtectionPercentage cfg)
                   (entryIsBuy w p) close)]
         end) l.

(** The four entry orders of a group at strike [atm], in the order of
    [enterPositions], for the last closes [c1] .. [c4]. *)
Definition entryOrders (cfg : Config) (atm : Z) (c1 c2 c3 c4 : float)
  : list BrokerCall :=
  let away := (hedgesNStrikesAway cfg * strikeDifference cfg)%Z in
  let price := entryLimitPrice (tickSize cfg) (marketProtectionPercentage cfg) in
  [ EnterLongLimit (mkSymbol (atm + away) Call) (price BUY c1) (quantity cfg);
    EnterLongLimit (mkSymbol (atm - away) Put) (price BUY c2) (quantity cfg);
    EnterShortLimit (mkSymbol atm Call) (price SELL c3) (quantity cfg);
    EnterShortLimit (mkSymbol atm Put) (price SELL c4) (quantity cfg) ].

(** The confirmation or the cancellation of the entry of leg [p]. *)
Definition entryCallback (confirmed : bool) (p : Leg) : Event :=
  if confirmed then EvEnterOk p else EvEnterCanceled p.

(** The tick at 10:00 of an idle day, and at the market's end of a day on
    which nothing was traded. *)
Definition idleMarketEnd : World :=
  snapshot (hm 15 30) None allBars [] (fun _ => false).

(** One group entered, all four entries confirmed and the phase
    recomputed; the tick at the exit time. *)
Definition entered : list (Event * World) :=
  shortsConfirmed
  ++ [ (EvEnterOk 0, quiet); (EvEnterOk 1, quiet);
       (EvStrategyLogic, stopsLive (hm 10 1) [0; 1; 2; 3]%nat) ].
Definition afterEntered : Strategy := runs cfg0 entered initial.
Definition stopsLiveAt1524 : World := stopsLive (hm 15 24) [0; 1; 2; 3]%nat.

(** One trigger while the ATM strike is unavailable. *)
Definition afterNoStrike : Strategy := run cfg0 EvResampledBars noStrike initial.

(** [ev] adds no leg to [pendingEntry], [pendingCancelExit] or
    [pendingExit], and leaves the groups as they are. *)
Definition adds_no_pending (cfg : Config) (w : World) (s : Strategy)
    (ev : Event) : Prop :=
  pendingEntry (run cfg ev w s) ⊆ pendingEntry s
  /\ pendingCancelExit (run cfg ev w s) ⊆ pendingCancelExit s
  /\ pendingExit (run cfg ev w s) ⊆ pendingExit s
  /\ positions (run cfg ev w s) = positions s.

(** The stop order of [onEnterOk] for leg [p]: the entry price raised by
    the schedule's percentage and floored to 0.05, and the buffered
    limit. *)
Definition stopOrder (cfg : Config) (w : World) (p : Leg) : BrokerCall :=
  let pct := stopLossPercentage (stopLosses cfg) (now w) in
  let stopLoss :=
    floor005
      (PyFloat.mul (entryPrice w p)
         (PyFloat.add (PyFloat.of_Z 1)
            (PyFloat.div (PyFloat.of_Z pct) (PyFloat.of_Z 100)))) in
  ExitStopLimit p stopLoss (floor005 (PyFloat.mul stopLoss (bufferFactor cfg))).

(** ** [getRoundedDateTime]

    [int(interval.total_seconds() / 60)] for a non-negative interval given
    by its microseconds: [total_seconds] is the correctly rounded quotient
    by [10^6], the division by [60] is a float division and [int]
    truncates. *)
Definition timeIntervalMinutes (interval_us : N) : option Z :=
  match PyFloat.div (PyFloat.of_ratio (Z.of_N interval_us) 1000000)
          (PyFloat.of_Z 60) with
  | PyFloat.Fin n => Some (Z.quot n PyFloat.one_ulps)
  | _ => None
  end.

(** [getRoundedDateTime]: the time of day of the result (the date is that
    of the argument: the minutes, seconds and microseconds taken away are
    the argument's own, so nothing is borrowed from the hour).  [None]
    stands for the [ZeroDivisionError] of [minute % 0]. *)
Definition getRoundedDateTime (originalDateTime : time) (interval_us : N)
  : option time :=
  match timeIntervalMinutes interval_us with
  | Some k =>
      if (k =? 0)%Z then None
      else
        let elapsedMinutes :=
          Z.to_nat (Z.of_nat (minute originalDateTime) mod k) in
        Some (mkTime (hour originalDateTime)
                (minute originalDateTime - elapsedMinutes) 0 0)
  | None => None
  end.

(** [datetime.timedelta(minutes=15)], in microseconds. *)
Definition fifteenMinutes : N := 900000000%N.

(** All four entries of the first group confirmed, the phase not yet
    recomputed. *)
Definition afterConfirmed : Strategy :=
  runs cfg0 (shortsConfirmed ++ [ (EvEnterOk 0, quiet); (EvEnterOk 1, quiet) ])
    initial.


(** What the broker does on its own, whatever the strategy tracks: it
    confirms the entry only of a position it has handed out, and it holds a
    live exit order only for a position whose entry it has confirmed before
    ([past] lists the events delivered so far). *)
Definition broker_plausible (past : list Event) (s : Strategy) (ev : Event)
    (w : World) : Prop :=
  (forall p, ev = EvEnterOk p -> (p < nextLeg s)%nat)
  /\ (forall p, exitActive w p = true -> In (EvEnterOk p) past).

(** A trace every step of which is plausible for the broker. *)
Fixpoint plausible (cfg : Config) (past : list Event)
    (tr : list (Event * World)) (s : Strategy) : Prop :=
  match tr with
  | [] => True
  | (ev, w) :: tr' =>
      broker_plausible past s ev w
      /\ plausible cfg (past ++ [ev]) tr' (run cfg ev w s)
  end.

(** A confirmed entry is no longer pending, and only legs whose entry was
    confirmed await a move to cost or a cancel. *)
Definition confirmed_apart (past : list Event) (s : Strategy) : Prop :=
  (forall p, In (EvEnterOk p) past ->
     (p < nextLeg s)%nat /\ Some p ∉ pendingEntry s)
  /\ (forall x, x ∈ pendingSLToCost s ∪ pendingCancelExit s ->
      exists p, x = Some p /\ In (EvEnterOk p) past).

(** * Effects of the methods *)

Ltac unfold_M :=
  unfold exec, mbind, M_bind, mret, M_ret, modify, get, call, raise,
    try_except, newPosition, countEnter in *.

Ltac fields :=
  cbv beta iota delta [submitted set_state set_pendingEntry
    set_pendingSLToCost set_pendingCancelExit set_pendingExit set_positions
    py_add py_discard state pendingEntry pendingSLToCost pendingCancelExit
    pendingExit positions nextLeg orders enterCalls fst snd] in *.

Lemma enterWithMarketProtection_spec cfg w sym a s :
  exists r n log,
    enterWithMarketProtection cfg w sym a s = (Returned r, submitted s n log)
    /\ (nextLeg s <= n)%nat
    /\ (forall p, r = Some p -> (nextLeg s <= p < n)%nat)
    /\ (lastBarClose w sym = None -> r = None).
Proof.
  unfold enterWithMarketProtection.
  destruct (lastBarClose w sym) as [close|] eqn:Hb.
  - destruct a; unfold_M;
      (eexists (Some (nextLeg s)), (S (nextLeg s)), [_]);
      (split; [reflexivity|]); (split; [lia|]);
      (split; [intros p [= <-]; lia|discriminate]).
  - exists None, (nextLeg s), []. unfold_M.
    split; [unfold submitted; rewrite app_nil_r; by destruct s|].
    split; [lia|]. split; [discriminate|done].
Qed.

Ltac enter_step n log Hle Hin Hnone :=
  unfold mbind at 1, M_bind at 1;
  match goal with
  | |- context [enterWithMarketProtection ?cfg ?w ?sy ?a ?st] =>
      destruct (enterWithMarketProtection_spec cfg w sy a st)
        as (? & n & log & -> & Hle & Hin & Hnone)
  end;
  cbv beta iota.

Lemma enterPositions_some cfg w s atm :
  atmStrike w = Some atm ->
  exists sp n log,
    enterPositions cfg w s =
      (Returned (Some sp),
       mkStrategy PLACING_ORDERS
         ({[peShort sp]} ∪ ({[ceShort sp]} ∪ ({[peHedge sp]}
            ∪ ({[ceHedge sp]} ∪ pendingEntry s))))
         (pendingSLToCost s) (pendingCancelExit s) (pendingExit s)
         (positions s) n (orders s ++ log) (S (enterCalls s)))
    /\ (nextLeg s <= n)%nat
    /\ legs_between (nextLeg s) n sp
    /\ (lastBarClose w
          (mkSymbol (atm + hedgesNStrikesAway cfg * strikeDifference cfg) Call)
        = None -> ceHedge sp = None).
Proof.
  intros H. unfold enterPositions. rewrite H.
  unfold mbind at 1, M_bind at 1, countEnter at 1, modify at 1.
  unfold mbind at 1, M_bind at 1, modify at 1.
  set (s0 := set_state _ _).
  enter_step n1 l1 Hle1 Hin1 Hn1. enter_step n2 l2 Hle2 Hin2 Hn2.
  enter_step n3 l3 Hle3 Hin3 Hn3. enter_step n4 l4 Hle4 Hin4 Hn4.
  unfold_M. subst s0. fields.
  eexists (mkStraddlePosition _ _ _ _ _), n4, (l1 ++ l2 ++ l3 ++ l4).
  split; [by rewrite <- !app_assoc|].
  split; [lia|]. split; [|exact Hn1].
  intros y q Hx Hp. cbv [ceHedge peHedge ceShort peShort] in Hx.
  rewrite !elem_of_cons, elem_of_nil in Hx.
  destruct Hx as [->|[->|[->|[->|[]]]]];
    [apply Hin1 in Hp|apply Hin2 in Hp|apply Hin3 in Hp|apply Hin4 in Hp];
    lia.
Qed.

Lemma enterPositions_none cfg w s :
  atmStrike w = None ->
  enterPositions cfg w s =
    (Returned None,
     mkStrategy (state s) (pendingEntry s) (pendingSLToCost s)
       (pendingCancelExit s) (pendingExit s) (positions s) (nextLeg s)
       (orders s) (S (enterCalls s))).
Proof. intros H. unfold enterPositions. rewrite H. by unfold_M. Qed.

Lemma onResampledBars_full cfg w s :
  length (positions s) = maxEntries cfg ->
  onResampledBars cfg w s = (Returned tt, s).
Proof.
  intros H. unfold onResampledBars, try_except.
  unfold mbind at 1, M_bind at 1, get at 1.
  apply Nat.eqb_eq in H. by rewrite H.
Qed.

Lemma onResampledBars_none cfg w s :
  atmStrike w = None ->
  length (positions s) <> maxEntries cfg ->
  onResampledBars cfg w s =
    (Returned tt,
     mkStrategy (state s) (pendingEntry s) (pendingSLToCost s)
       (pendingCancelExit s) (pendingExit s)
       (positions_add None (positions s)) (nextLeg s) (orders s)
       (S (enterCalls s))).
Proof.
  intros H Hn. unfold onResampledBars, try_except.
  unfold mbind at 1, M_bind at 1, get at 1.
  apply Nat.eqb_neq in Hn. rewrite Hn.
  unfold mbind at 1, M_bind at 1. rewrite (enterPositions_none _ _ _ H).
  reflexivity.
Qed.

Lemma onResampledBars_some cfg w s atm :
  atmStrike w = Some atm ->
  length (positions s) <> maxEntries cfg ->
  exists sp n log,
    onResampledBars cfg w s =
      (Returned tt,
       mkStrategy PLACING_ORDERS
         ({[peShort sp]} ∪ ({[ceShort sp]} ∪ ({[peHedge sp]}
            ∪ ({[ceHedge sp]} ∪ pendingEntry s))))
         (pendingSLToCost s) (pendingCancelExit s) (pendingExit s)
         (positions s ++ [Some sp]) n (orders s ++ log) (S (enterCalls s)))
    /\ (nextLeg s <= n)%nat
    /\ legs_between (nextLeg s) n sp
    /\ (lastBarClose w
          (mkSymbol (atm + hedgesNStrikesAway cfg * strikeDifference cfg) Call)
        = None -> ceHedge sp = None).
Proof.
  intros H Hn.
  destruct (enterPositions_some cfg w s atm H) as (sp & n & log & E & R).
  exists sp, n, log. split; [|exact R].
  unfold onResampledBars, try_except.
  unfold mbind at 1, M_bind at 1, get at 1.
  apply Nat.eqb_neq in Hn. rewrite Hn.
  unfold mbind at 1, M_bind at 1. rewrite E. reflexivity.
Qed.

Lemma exitWithMarketProtection_spec cfg w p s :
  exists log, exitWithMarketProtection cfg w p s =
    (Returned tt, mkStrategy (state s) (pendingEntry s) (pendingSLToCost s)
      (pendingCancelExit s) (pendingExit s) (positions s) (nextLeg s)
      (orders s ++ log) (enterCalls s)).
Proof.
  unfold exitWithMarketProtection. destruct (lastBarClose _ _); unfold_M; simpl.
  - eexists; reflexivity.
  - exists []. rewrite app_nil_r. by destruct s.
Qed.

Lemma closeLoop_spec cfg w l : forall s,
  exists log, for_each l (closePosition cfg w) s =
    (Returned tt, mkStrategy (state s) (pendingEntry s) (pendingSLToCost s)
      (list_to_set (Some <$> List.filter (exitActive w) l)
         ∪ pendingCancelExit s)
      (list_to_set (Some <$> l) ∪ pendingExit s) (positions s) (nextLeg s)
      (orders s ++ log) (enterCalls s)).
Proof.
  induction l as [|p l IH]; intros s; simpl.
  - exists []. unfold_M. rewrite app_nil_r. destruct s; simpl.
    by rewrite !(left_id_L ∅ (∪)).
  - unfold mbind at 1, M_bind at 1. unfold closePosition at 1.
    destruct (exitActive w p) eqn:Ha.
    + unfold_M; simpl. edestruct IH as [log ->]. simpl.
      eexists. rewrite <- app_assoc. unfold py_add.
      rewrite !(assoc_L (∪)), !(comm_L (∪) _ {[Some p]}). reflexivity.
    + unfold mbind at 1, M_bind at 1. unfold modify at 1.
      destruct (exitWithMarketProtection_spec cfg w p
                  (set_pendingExit (py_add (Some p) (pendingExit s)) s))
        as [log1 ->].
      edestruct IH as [log ->]. simpl.
      eexists. rewrite <- app_assoc. unfold py_add.
      rewrite !(assoc_L (∪)), !(comm_L (∪) _ {[Some p]}). reflexivity.
Qed.

Lemma closeAllPositions_spec cfg w s :
  exists log, closeAllPositions cfg w s =
    (Returned tt, mkStrategy SQUARING_OFF (pendingEntry s) (pendingSLToCost s)
      (list_to_set (Some <$> List.filter (exitActive w) (activePositions w))
         ∪ pendingCancelExit s)
      (list_to_set (Some <$> activePositions w) ∪ pendingExit s)
      (positions s) (nextLeg s) (orders s ++ log) (enterCalls s)).
Proof.
  unfold closeAllPositions. unfold mbind at 1, M_bind at 1, modify at 1.
  destruct (closeLoop_spec cfg w (activePositions w)
              (set_state SQUARING_OFF s)) as [log ->].
  by exists log.
Qed.


Ltac proj :=
  cbn [submitted set_state set_pendingEntry set_pendingSLToCost
    set_pendingCancelExit set_pendingExit set_positions py_add py_discard
    state pendingEntry pendingSLToCost pendingCancelExit pendingExit
    positions nextLeg orders enterCalls fst snd] in *.

Ltac bind_step := unfold mbind at 1, M_bind at 1.

Lemma strategy_eta s :
  mkStrategy (state s) (pendingEntry s) (pendingSLToCost s)
    (pendingCancelExit s) (pendingExit s) (positions s) (nextLeg s)
    (orders s) (enterCalls s) = s.
Proof. by destruct s. Qed.

Lemma getStraddlePosition_eq p s :
  getStraddlePosition p s =
    (match straddlesOf p (positions s) with
     | Returned l => Returned (head l)
     | Raised e => Raised e
     end, s).
Proof.
  unfold getStraddlePosition. unfold_M. by destruct (straddlesOf _ _).
Qed.

Lemma straddlesOf_None p l :
  None ∈ l -> straddlesOf p l = Raised AttributeError.
Proof.
  induction l as [|[sp|] l IH]; intros H.
  - by apply elem_of_nil in H.
  - apply elem_of_cons in H as [H|H]; [discriminate|].
    simpl. by rewrite (IH H).
  - reflexivity.
Qed.

Lemma onEnterOk_spec cfg w p s :
  exists r log, onEnterOk cfg w p s =
    (r, mkStrategy (state s) (pendingEntry s ∖ {[Some p]}) (pendingSLToCost s)
          (pendingCancelExit s) (pendingExit s) (positions s) (nextLeg s)
          (orders s ++ log) (enterCalls s)).
Proof.
  unfold onEnterOk. bind_step. unfold modify at 1.
  bind_step. rewrite getStraddlePosition_eq. proj.
  destruct (straddlesOf p (positions s)) as [l|e].
  - destruct (head l); unfold_M; proj.
    + eexists _, [_]. reflexivity.
    + eexists _, []. by rewrite app_nil_r.
  - eexists _, []. by rewrite app_nil_r.
Qed.

Lemma onEnterCanceled_spec p s :
  onEnterCanceled p s =
    (Returned tt,
     mkStrategy (state s) (pendingEntry s ∖ {[Some p]}) (pendingSLToCost s)
       (pendingCancelExit s) (pendingExit s) (positions s) (nextLeg s)
       (orders s) (enterCalls s)).
Proof. reflexivity. Qed.

Lemma discard_absent (x : option Leg) (X : gset (option Leg)) :
  x ∉ X -> X ∖ {[x]} = X.
Proof. set_solver. Qed.

Lemma placing_or_same (P : Prop) s :
  P ->
  (if bool_decide (state s <> SQUARING_OFF) then PLACING_ORDERS else state s)
    = state s
  \/ (if bool_decide (state s <> SQUARING_OFF) then PLACING_ORDERS
      else state s) = PLACING_ORDERS /\ state s <> SQUARING_OFF /\ P.
Proof. intros HP. case_bool_decide; [right|left]; done. Qed.

Lemma onExitCanceled_spec cfg w p s :
  exists st log, onExitCanceled cfg w p s =
    (Returned tt,
     mkStrategy st (pendingEntry s) (pendingSLToCost s ∖ {[Some p]})
       (pendingCancelExit s ∖ {[Some p]}) (pendingExit s) (positions s)
       (nextLeg s) (orders s ++ log) (enterCalls s))
    /\ (st = state s
        \/ st = PLACING_ORDERS /\ state s <> SQUARING_OFF
           /\ (Some p ∈ pendingSLToCost s \/ Some p ∈ pendingExit s)).
Proof.
  unfold onExitCanceled. bind_step. unfold modify at 1.
  bind_step. unfold get at 1. proj.
  destruct (decide (Some p ∈ pendingSLToCost s)) as [Hsl|Hsl].
  - rewrite (bool_decide_eq_true_2 _ Hsl). unfold_M.
    unfold placingUnlessSquaringOff. proj.
    eexists _, [_]. split; [reflexivity|]. apply placing_or_same; by left.
  - rewrite (bool_decide_eq_false_2 _ Hsl), (discard_absent _ _ Hsl).
    destruct (decide (Some p ∈ pendingExit s)) as [Hex|Hex];
      [rewrite (bool_decide_eq_true_2 _ Hex)
      |rewrite (bool_decide_eq_false_2 _ Hex)].
    + bind_step. unfold modify at 1. unfold placingUnlessSquaringOff.
      match goal with
      | |- context [exitWithMarketProtection ?c ?w0 ?q ?st0] =>
          destruct (exitWithMarketProtection_spec c w0 q st0) as [log ->]
      end.
      proj. eexists _, log. split; [reflexivity|].
      apply placing_or_same; by right.
    + unfold_M. exists (state s), []. rewrite app_nil_r. split; [done|by left].
Qed.

Lemma onExitOk_spec w p s :
  exists r st sl log, onExitOk w p s =
    (r, mkStrategy st (pendingEntry s) sl (pendingCancelExit s)
          (pendingExit s ∖ {[Some p]}) (positions s) (nextLeg s)
          (orders s ++ log) (enterCalls s))
    /\ ((st = state s /\ sl = pendingSLToCost s /\ log = [])
        \/ exists q, st = PLACING_ORDERS /\ state s <> SQUARING_OFF
             /\ sl = {[Some q]} ∪ pendingSLToCost s
             /\ exitActive w q = true /\ log = [CancelExit q]).
Proof.
  assert (Hsame : forall r, exists r' st sl log,
    (r, mkStrategy (state s) (pendingEntry s) (pendingSLToCost s)
          (pendingCancelExit s) (pendingExit s ∖ {[Some p]}) (positions s)
          (nextLeg s) (orders s) (enterCalls s)) =
    (r' : Result unit, mkStrategy st (pendingEntry s) sl (pendingCancelExit s)
          (pendingExit s ∖ {[Some p]}) (positions s) (nextLeg s)
          (orders s ++ log) (enterCalls s))
    /\ ((st = state s /\ sl = pendingSLToCost s /\ log = [])
        \/ exists q, st = PLACING_ORDERS /\ state s <> SQUARING_OFF
             /\ sl = {[Some q]} ∪ pendingSLToCost s
             /\ exitActive w q = true /\ log = [CancelExit q])).
  { intros r. exists r, (state s), (pendingSLToCost s), [].
    rewrite app_nil_r. split; [done|by left]. }
  unfold onExitOk. bind_step. unfold modify at 1.
  bind_step. unfold get at 1. proj.
  case_bool_decide as Hsq; [apply Hsame|].
  bind_step. rewrite getStraddlePosition_eq. proj.
  destruct (straddlesOf p (positions s)) as [l|e]; [|apply Hsame].
  destruct (head l) as [sp|]; [|apply Hsame].
  destruct (if bool_decide (Some p <> ceShort sp) then ceShort sp
            else peShort sp) as [q|]; [|apply Hsame].
  destruct (exitFilled w q); [apply Hsame|].
  destruct (exitActive w q) eqn:Ha; [|apply Hsame].
  unfold_M. proj. eexists _, _, _, _. split; [reflexivity|].
  right. exists q. done.
Qed.

Lemma nonempty_false (X : gset (option Leg)) : nonempty X = false <-> X = ∅.
Proof.
  unfold nonempty. rewrite bool_decide_eq_false. split; intros H.
  - apply leibniz_equiv, size_empty_iff. by apply dec_stable.
  - subst X. rewrite size_empty. auto.
Qed.

Lemma drained_iff s :
  nonempty (pendingEntry s) || nonempty (pendingSLToCost s)
  || nonempty (pendingCancelExit s) || nonempty (pendingExit s) = false
  <-> all_drained s.
Proof.
  unfold all_drained. rewrite !orb_false_iff, !nonempty_false. tauto.
Qed.

Lemma set_state_same s : set_state (state s) s = s.
Proof. by destruct s. Qed.

Lemma transition_rule_eq cfg w old :
  transition_rule cfg w old =
    if bool_decide (old = SQUARING_OFF) && time_geb (now w) (exitTime cfg)
    then EXITED
    else if (length (activePositions w) =? 0)%nat then LIVE else ENTERED.
Proof. unfold transition_rule. by destruct (activePositions w). Qed.

Lemma handlePlacingOrders_spec cfg w s :
  exists st, handlePlacingOrders cfg w s = (Returned tt, set_state st s)
    /\ (st = state s
        \/ all_drained s /\ pendingOrdersCompleted w = true
           /\ st = transition_rule cfg w (state s)).
Proof.
  unfold handlePlacingOrders. bind_step. unfold get at 1.
  destruct (nonempty (pendingEntry s) || nonempty (pendingSLToCost s)
            || nonempty (pendingCancelExit s) || nonempty (pendingExit s))
    eqn:Hd.
  { exists (state s). rewrite set_state_same. split; [done|by left]. }
  apply drained_iff in Hd.
  destruct (pendingOrdersCompleted w) eqn:Hc; cbn [negb].
  2:{ exists (state s). rewrite set_state_same. split; [done|by left]. }
  exists (transition_rule cfg w (state s)). split; [|by right].
  rewrite transition_rule_eq.
  destruct (bool_decide (state s = SQUARING_OFF)
            && time_geb (now w) (exitTime cfg)); [done|].
  by destruct (length (activePositions w) =? 0)%nat.
Qed.

Lemma strategyLogic_cases cfg w s :
  exists st,
    (st = state s
     \/ pending_phase (state s) /\ all_drained s
        /\ pendingOrdersCompleted w = true
        /\ st = transition_rule cfg w (state s))
    /\ (exec (strategyLogic cfg w) s = set_state st s
        \/ time_geb (now w) (marketEndTime cfg) = true
           /\ exec (strategyLogic cfg w) s = reset (set_state st s)
        \/ time_geb (now w) (marketEndTime cfg) = false
           /\ time_geb (now w) (exitTime cfg) = true /\ st = ENTERED
           /\ exec (strategyLogic cfg w) s
              = exec (closeAllPositions cfg w) (set_state st s)).
Proof.
  assert (Hst : exists st,
    (st = state s
     \/ pending_phase (state s) /\ all_drained s
        /\ pendingOrdersCompleted w = true
        /\ st = transition_rule cfg w (state s))
    /\ (if bool_decide (state s = PLACING_ORDERS)
           || bool_decide (state s = SQUARING_OFF)
        then handlePlacingOrders cfg w else mret tt) s
       = (Returned tt, set_state st s)).
  { destruct (bool_decide (state s = PLACING_ORDERS)
              || bool_decide (state s = SQUARING_OFF)) eqn:Hp.
    - destruct (handlePlacingOrders_spec cfg w s) as (st & E & Hc).
      exists st. split; [|exact E].
      destruct Hc as [->|(Hd & Hc & ->)]; [by left|right].
      split; [|done]. apply orb_true_iff in Hp as [Hp|Hp];
        apply bool_decide_eq_true in Hp; [by left|by right].
    - exists (state s). rewrite set_state_same. split; [by left|done]. }
  destruct Hst as (st & Hst & E). exists st. split; [exact Hst|].
  set (s1 := set_state st s).
  pattern (exec (strategyLogic cfg w) s).
  match goal with |- ?P _ => set (Q := P) end.
  unfold strategyLogic, exec, try_except.
  bind_step. unfold get at 1. bind_step. rewrite E. fold s1.
  destruct (time_geb (now w) (marketEndTime cfg)) eqn:Hend.
  { destruct (0 <? _)%nat; subst Q; cbv beta;
      [right; left; split|left]; reflexivity. }
  destruct (time_geb (now w) (exitTime cfg)) eqn:Hexit;
    [|subst Q; left; reflexivity].
  bind_step. unfold get at 1.
  destruct (decide (state s1 = ENTERED)) as [He|He].
  - rewrite (bool_decide_eq_true_2 _ He).
    destruct (closeAllPositions_spec cfg w s1) as [log Ec]. rewrite Ec.
    subst Q; cbv beta. right; right. repeat (split; [done|]).
    unfold exec. by rewrite Ec.
  - rewrite (bool_decide_eq_false_2 _ He). subst Q. left. reflexivity.
Qed.

Lemma positions_add_keeps v l x : x ∈ l -> x ∈ positions_add v l.
Proof.
  intros H. unfold positions_add. destruct v; [set_solver|].
  destruct (existsb _ l); set_solver.
Qed.

Lemma positions_add_None l : None ∈ positions_add None l.
Proof.
  unfold positions_add. destruct (existsb _ l) eqn:E; [|set_solver].
  apply existsb_exists in E as (x & Hx & E).
  apply bool_decide_eq_true in E. subst x. by apply list_elem_of_In.
Qed.

(** Within a session the groups are only ever added to. *)
Lemma run_positions cfg ev w s :
  in_session cfg ev w ->
  positions (run cfg ev w s) = positions s
  \/ exists v, positions (run cfg ev w s) = positions_add v (positions s).
Proof.
  intros Hin. unfold run. destruct ev as [| | |p|p|p|p]; cbn [handler].
  - destruct (strategyLogic_cases cfg w s) as (st & _ & [E|[[Ht _]|(_&_&_&E)]]).
    + rewrite E. by left.
    + cbn in Hin. unfold time_geb in Ht. rewrite Hin in Ht. discriminate.
    + rewrite E. unfold exec.
      destruct (closeAllPositions_spec cfg w (set_state st s)) as [log ->].
      by left.
  - unfold exec.
    destruct (decide (length (positions s) = maxEntries cfg)) as [Hl|Hl].
    { rewrite (onResampledBars_full _ _ _ Hl). by left. }
    destruct (atmStrike w) as [atm|] eqn:Ha.
    + destruct (onResampledBars_some cfg w s atm Ha Hl)
        as (sp & n & log & -> & _).
      right. by exists (Some sp).
    + rewrite (onResampledBars_none _ _ _ Ha Hl). right. by exists None.
  - unfold exec. destruct (closeAllPositions_spec cfg w s) as [log ->].
    by left.
  - unfold exec. destruct (onEnterOk_spec cfg w p s) as (r & log & ->).
    by left.
  - by left.
  - unfold exec.
    destruct (onExitOk_spec w p s) as (r & st & sl & log & -> & _). by left.
  - unfold exec.
    destruct (onExitCanceled_spec cfg w p s) as (st & log & -> & _). by left.
Qed.

Lemma runs_positions cfg tr : forall s x,
  Forall (fun e => in_session cfg e.1 e.2) tr ->
  x ∈ positions s -> x ∈ positions (runs cfg tr s).
Proof.
  induction tr as [|[ev w] tr IH]; intros s x Hf Hx; [done|].
  apply Forall_cons in Hf as [Hin Hf]. cbn [runs]. apply IH; [done|].
  destruct (run_positions cfg ev w s Hin) as [->|[v ->]]; [done|].
  by apply positions_add_keeps.
Qed.

Lemma onEnterOk_raises cfg w p s :
  None ∈ positions s -> fst (onEnterOk cfg w p s) = Raised AttributeError.
Proof.
  intros H. unfold onEnterOk. bind_step. unfold modify at 1.
  bind_step. rewrite getStraddlePosition_eq. proj.
  by rewrite (straddlesOf_None _ _ H).
Qed.

Lemma onExitOk_raises w p s :
  None ∈ positions s -> state s <> SQUARING_OFF ->
  fst (onExitOk w p s) = Raised AttributeError.
Proof.
  intros H Hs. unfold onExitOk. bind_step. unfold modify at 1.
  bind_step. unfold get at 1. proj.
  rewrite (bool_decide_eq_false_2 _ Hs).
  bind_step. rewrite getStraddlePosition_eq. proj.
  by rewrite (straddlesOf_None _ _ H).
Qed.

Lemma reachable_runs cfg ok tr : forall s,
  reachable cfg ok s -> admitted cfg ok tr s -> reachable cfg ok (runs cfg tr s).
Proof.
  induction tr as [|[ev w] tr IH]; intros s Hr Ha; [done|].
  destruct Ha as [Hok Ha]. cbn [runs]. apply IH; [|done].
  by apply reachable_step.
Qed.

(** * The claims *)

(** C10. When a trigger fires while the ATM strike is unavailable,
    [enterPositions] returns [None] and [onResampledBars] puts [None] among
    the groups; from then on, for the rest of the session,
    [getStraddlePosition] raises instead of returning, and so do the
    entry-confirmed handler and (outside [SQUARING_OFF]) the exit-confirmed
    handler. *)
Theorem C10_no_strike_poisons_the_groups cfg w s :
  atmStrike w = None ->
  length (positions s) <> maxEntries cfg ->
  fst (enterPositions cfg w s) = Returned None
  /\ None ∈ positions (run cfg EvResampledBars w s)
  /\ forall tr, Forall (fun e => in_session cfg e.1 e.2) tr ->
       forall p w',
         let s' := runs cfg tr (run cfg EvResampledBars w s) in
         fst (getStraddlePosition p s') = Raised AttributeError
         /\ fst (onEnterOk cfg w' p s') = Raised AttributeError
         /\ (state s' <> SQUARING_OFF ->
             fst (onExitOk w' p s') = Raised AttributeError).
Proof.
  intros Ha Hl.
  assert (Hn : None ∈ positions (run cfg EvResampledBars w s)).
  { unfold run, exec. cbn [handler].
    rewrite (onResampledBars_none _ _ _ Ha Hl). cbn [snd positions].
    apply positions_add_None. }
  split; [by rewrite (enterPositions_none _ _ _ Ha)|].
  split; [exact Hn|].
  intros tr Hf p w' s'.
  assert (Hs' : None ∈ positions s') by (by apply runs_positions).
  split; [|split].
  - rewrite getStraddlePosition_eq. cbn [fst].
    by rewrite (straddlesOf_None _ _ Hs').
  - by apply onEnterOk_raises.
  - by apply onExitOk_raises.
Qed.

Lemma C10_witness :
  fst (enterPositions cfg0 noStrike initial) = Returned None
  /\ None ∈ positions (run cfg0 EvResampledBars noStrike initial)
  /\ forall tr, Forall (fun e => in_session cfg0 e.1 e.2) tr ->
       forall p w',
         let s' := runs cfg0 tr (run cfg0 EvResampledBars noStrike initial) in
         fst (getStraddlePosition p s') = Raised AttributeError
         /\ fst (onEnterOk cfg0 w' p s') = Raised AttributeError
         /\ (state s' <> SQUARING_OFF ->
             fst (onExitOk w' p s') = Raised AttributeError).
Proof.
  apply (C10_no_strike_poisons_the_groups cfg0 noStrike initial).
  - reflexivity.
  - vm_compute. lia.
Defined.

(** C1. The code does not keep skipped legs out of [pendingEntry]: when
    the call hedge has no last bar, its submission is skipped, the skipped
    entry's result [None] is added to [pendingEntry] all the same, and no
    entry callback ever removes it. *)
Theorem C1_skipped_leg_enters_pendingEntry cfg w s atm :
  atmStrike w = Some atm ->
  lastBarClose w
    (mkSymbol (atm + hedgesNStrikesAway cfg * strikeDifference cfg) Call)
    = None ->
  None ∈ pendingEntry (exec (enterPositions cfg w) s)
  /\ forall p w',
       None ∈ pendingEntry
         (run cfg (EvEnterOk p) w' (exec (enterPositions cfg w) s))
       /\ None ∈ pendingEntry
         (run cfg (EvEnterCanceled p) w' (exec (enterPositions cfg w) s)).
Proof.
  intros Ha Hb. unfold exec.
  destruct (enterPositions_some cfg w s atm Ha)
    as (sp & n & log & -> & _ & _ & Hce).
  cbn [snd]. rewrite (Hce Hb).
  split; [cbn [pendingEntry]; set_solver|].
  intros p w'. unfold run, exec. cbn [handler]. split.
  - match goal with
    | |- context [onEnterOk ?c ?w0 ?q ?st] =>
        destruct (onEnterOk_spec c w0 q st) as (r & log' & ->)
    end.
    cbn [snd pendingEntry]. set_solver.
  - rewrite onEnterCanceled_spec. cbn [snd pendingEntry]. set_solver.
Qed.

Lemma C1_witness :
  None ∈ pendingEntry (exec (enterPositions cfg0 callHedgeMissing) initial)
  /\ forall p w',
       None ∈ pendingEntry
         (run cfg0 (EvEnterOk p) w'
            (exec (enterPositions cfg0 callHedgeMissing) initial))
       /\ None ∈ pendingEntry
         (run cfg0 (EvEnterCanceled p) w'
            (exec (enterPositions cfg0 callHedgeMissing) initial)).
Proof.
  apply (C1_skipped_leg_enters_pendingEntry cfg0 callHedgeMissing initial
           20000%Z).
  - reflexivity.
  - vm_compute. reflexivity.
Defined.

(** C5, as stated, fails: four triggers while the ATM strike is
    unavailable invoke [enterPositions] four times, more than [maxEntries]. *)
Lemma C5_counterexample :
  (maxEntries cfg0 < enterCalls (runs cfg0 fourTriggersNoStrike initial))%nat.
Proof. vm_compute. lia. Qed.

Lemma positions_add_length v l :
  (length (positions_add v l) <= S (length l))%nat.
Proof.
  unfold positions_add. destruct v; [rewrite length_app; simpl; lia|].
  destruct (existsb _ l); [lia|rewrite length_app; simpl; lia].
Qed.

Lemma run_positions_length cfg ev w s :
  (length (positions s) <= maxEntries cfg)%nat ->
  (length (positions (run cfg ev w s)) <= maxEntries cfg)%nat.
Proof.
  intros Hl. unfold run. destruct ev as [| | |p|p|p|p]; cbn [handler].
  - destruct (strategyLogic_cases cfg w s)
      as (st & _ & [E|[[_ E]|(_&_&_&E)]]); rewrite E.
    + done.
    + cbn. lia.
    + unfold exec.
      destruct (closeAllPositions_spec cfg w (set_state st s)) as [log ->].
      done.
  - unfold exec.
    destruct (decide (length (positions s) = maxEntries cfg)) as [He|He].
    { by rewrite (onResampledBars_full _ _ _ He). }
    destruct (atmStrike w) as [atm|] eqn:Ha.
    + destruct (onResampledBars_some cfg w s atm Ha He)
        as (sp & n & log & -> & _).
      cbn [snd positions]. rewrite length_app. simpl. lia.
    + rewrite (onResampledBars_none _ _ _ Ha He). cbn [snd positions].
      pose proof (positions_add_length None (positions s)). lia.
  - unfold exec. by destruct (closeAllPositions_spec cfg w s) as [log ->].
  - unfold exec. by destruct (onEnterOk_spec cfg w p s) as (r & log & ->).
  - done.
  - unfold exec.
    by destruct (onExitOk_spec w p s) as (r & st & sl & log & -> & _).
  - unfold exec.
    by destruct (onExitCanceled_spec cfg w p s) as (st & log & -> & _).
Qed.

(** C5, amended. At every reachable state the strategy holds at most
    [maxEntries] groups, and a trigger that finds exactly [maxEntries] of
    them does nothing: the strategy, its orders and the count of
    [enterPositions] calls included, is unchanged. *)
Theorem C5_groups_bounded cfg s :
  reachable cfg any_event s ->
  (length (positions s) <= maxEntries cfg)%nat
  /\ (length (positions s) = maxEntries cfg ->
      forall w, onResampledBars cfg w s = (Returned tt, s)).
Proof.
  intros Hr. split.
  - induction Hr as [|s ev w Hr IH Hok]; [cbn; lia|].
    by apply run_positions_length.
  - intros He w. by apply onResampledBars_full.
Qed.

Lemma C5_witness :
  (length (positions (runs cfg0 threeEntries initial)) <= maxEntries cfg0)%nat
  /\ (length (positions (runs cfg0 threeEntries initial)) = maxEntries cfg0 ->
      forall w, onResampledBars cfg0 w (runs cfg0 threeEntries initial)
                = (Returned tt, runs cfg0 threeEntries initial)).
Proof.
  apply (C5_groups_bounded cfg0 (runs cfg0 threeEntries initial)).
  apply reachable_runs; [apply reachable_initial|].
  vm_compute. tauto.
Defined.




Lemma onEnterOk_fst cfg w p s :
  fst (onEnterOk cfg w p s) =
    match straddlesOf p (positions s) with
    | Returned _ => Returned tt
    | Raised e => Raised e
    end.
Proof.
  unfold onEnterOk. bind_step. unfold modify at 1.
  bind_step. rewrite getStraddlePosition_eq. proj.
  destruct (straddlesOf p (positions s)) as [l|e]; [|done].
  by destruct (head l).
Qed.

Lemma onExitOk_exact w p s :
  onExitOk w p s =
    let s0 := set_pendingExit (pendingExit s ∖ {[Some p]}) s in
    if bool_decide (state s = SQUARING_OFF) then (Returned tt, s0)
    else match straddlesOf p (positions s) with
         | Raised e => (Raised e, s0)
         | Returned l =>
             match head l with
             | None => (Returned tt, s0)
             | Some sp =>
                 match otherShort p sp with
                 | None => (Raised AttributeError, s0)
                 | Some q =>
                     if exitFilled w q then (Returned tt, s0)
                     else if exitActive w q then
                       (Returned tt,
                        mkStrategy PLACING_ORDERS (pendingEntry s)
                          ({[Some q]} ∪ pendingSLToCost s)
                          (pendingCancelExit s) (pendingExit s ∖ {[Some p]})
                          (positions s) (nextLeg s)
                          (orders s ++ [CancelExit q]) (enterCalls s))
                     else (Returned tt, s0)
                 end
             end
         end.
Proof.
  unfold onExitOk, otherShort. bind_step. unfold modify at 1.
  bind_step. unfold get at 1. proj.
  case_bool_decide; [done|].
  bind_step. rewrite getStraddlePosition_eq. proj.
  destruct (straddlesOf p (positions s)) as [l|e]; [|done].
  destruct (head l) as [sp|]; [|done].
  destruct (if bool_decide (Some p <> ceShort sp) then ceShort sp
            else peShort sp) as [q|]; [|done].
  destruct (exitFilled w q); [done|]. by destruct (exitActive w q).
Qed.

Lemma onExitOk_twice w p s :
  tracker (exec (onExitOk w p) (exec (onExitOk w p) s))
    = tracker (exec (onExitOk w p) s)
  /\ fst (onExitOk w p (exec (onExitOk w p) s)) = fst (onExitOk w p s).
Proof.
  assert (Hd : forall X : gset (option Leg), X ∖ {[Some p]} ∖ {[Some p]}
                 = X ∖ {[Some p]}) by set_solver.
  assert (Hu : forall (q : Leg) (X : gset (option Leg)),
             {[Some q]} ∪ ({[Some q]} ∪ X) = {[Some q]} ∪ X) by set_solver.
  unfold exec. rewrite (onExitOk_exact w p s). cbv zeta.
  destruct (bool_decide (state s = SQUARING_OFF)) eqn:Hs.
  { rewrite onExitOk_exact. proj. rewrite Hs. unfold tracker. proj.
    by rewrite Hd. }
  destruct (straddlesOf p (positions s)) as [l|e] eqn:Hl.
  2:{ rewrite onExitOk_exact. proj. rewrite Hs, Hl. unfold tracker. proj.
      by rewrite Hd. }
  destruct (head l) as [sp|] eqn:Hh.
  2:{ rewrite onExitOk_exact. proj. rewrite Hs, Hl, Hh. unfold tracker. proj.
      by rewrite Hd. }
  destruct (otherShort p sp) as [q|] eqn:Ho.
  2:{ rewrite onExitOk_exact. proj. rewrite Hs, Hl, Hh, Ho.
      unfold tracker. proj. by rewrite Hd. }
  destruct (exitFilled w q) eqn:Hf.
  { rewrite onExitOk_exact. proj. rewrite Hs, Hl, Hh, Ho, Hf.
    unfold tracker. proj. by rewrite Hd. }
  destruct (exitActive w q) eqn:Ha.
  - rewrite onExitOk_exact. proj. rewrite Hl, Hh, Ho, Hf, Ha.
    cbn [bool_decide decide_rel]. rewrite bool_decide_eq_false_2 by done.
    unfold tracker. proj. by rewrite Hd, Hu.
  - rewrite onExitOk_exact. proj. rewrite Hs, Hl, Hh, Ho, Hf, Ha.
    unfold tracker. proj. by rewrite Hd.
Qed.

Lemma onExitCanceled_state cfg w p s :
  state (exec (onExitCanceled cfg w p) s) =
    if bool_decide (Some p ∈ pendingSLToCost s)
       || bool_decide (Some p ∈ pendingExit s)
    then (if bool_decide (state s <> SQUARING_OFF) then PLACING_ORDERS
          else state s)
    else state s.
Proof.
  unfold exec, onExitCanceled. bind_step. unfold modify at 1.
  bind_step. unfold get at 1. proj.
  destruct (bool_decide (Some p ∈ pendingSLToCost s)); cbn [orb].
  { unfold_M. unfold placingUnlessSquaringOff. reflexivity. }
  destruct (bool_decide (Some p ∈ pendingExit s)); [|reflexivity].
  bind_step. unfold modify at 1. unfold placingUnlessSquaringOff.
  match goal with
  | |- context [exitWithMarketProtection ?c ?w0 ?q ?st0] =>
      destruct (exitWithMarketProtection_spec c w0 q st0) as [log ->]
  end.
  reflexivity.
Qed.

Lemma onExitCanceled_twice cfg w p s :
  tracker (exec (onExitCanceled cfg w p) (exec (onExitCanceled cfg w p) s))
    = tracker (exec (onExitCanceled cfg w p) s)
  /\ fst (onExitCanceled cfg w p (exec (onExitCanceled cfg w p) s))
     = fst (onExitCanceled cfg w p s).
Proof.
  assert (Hd : forall X : gset (option Leg), X ∖ {[Some p]} ∖ {[Some p]}
                 = X ∖ {[Some p]}) by set_solver.
  pose proof (onExitCanceled_state cfg w p s) as Hst1.
  pose proof (onExitCanceled_state cfg w p (exec (onExitCanceled cfg w p) s))
    as Hst2.
  unfold exec in *.
  destruct (onExitCanceled_spec cfg w p s) as (st1 & log1 & E1 & _).
  rewrite E1 in *. cbn [snd fst] in *.
  match goal with
  | |- context [onExitCanceled cfg w p ?s1] =>
      destruct (onExitCanceled_spec cfg w p s1) as (st2 & log2 & E2 & _)
  end.
  rewrite E2 in *. cbn [snd fst] in *. proj.
  split; [|done]. unfold tracker. proj. rewrite !Hd.
  assert (st2 = st1) as ->; [|done].
  rewrite Hst2, Hst1.
  rewrite (bool_decide_eq_false_2 (Some p ∈ pendingSLToCost s ∖ {[Some p]}))
    by set_solver.
  cbn [orb].
  destruct (bool_decide (Some p ∈ pendingExit s)).
  - rewrite orb_true_r. repeat case_bool_decide; congruence.
  - rewrite orb_false_r. done.
Qed.

Lemma onEnterOk_twice cfg w p s :
  tracker (exec (onEnterOk cfg w p) (exec (onEnterOk cfg w p) s))
    = tracker (exec (onEnterOk cfg w p) s)
  /\ fst (onEnterOk cfg w p (exec (onEnterOk cfg w p) s))
     = fst (onEnterOk cfg w p s).
Proof.
  assert (Hd : forall X : gset (option Leg), X ∖ {[Some p]} ∖ {[Some p]}
                 = X ∖ {[Some p]}) by set_solver.
  rewrite !onEnterOk_fst. unfold exec.
  destruct (onEnterOk_spec cfg w p s) as (r1 & log1 & E1). rewrite E1.
  cbn [snd].
  match goal with
  | |- context [onEnterOk cfg w p ?s1] =>
      destruct (onEnterOk_spec cfg w p s1) as (r2 & log2 & E2)
  end.
  rewrite E2. cbn [snd]. proj. unfold tracker. proj. by rewrite Hd.
Qed.

Lemma onEnterCanceled_twice p s :
  exec (onEnterCanceled p) (exec (onEnterCanceled p) s)
    = exec (onEnterCanceled p) s.
Proof.
  assert (Hd : forall X : gset (option Leg), X ∖ {[Some p]} ∖ {[Some p]}
                 = X ∖ {[Some p]}) by set_solver.
  unfold exec. rewrite !onEnterCanceled_spec. proj. by rewrite Hd.
Qed.

(** C4, as stated, fails: a second entry-confirmed delivery for the short
    leg 2 submits a second stop order. *)
Lemma C4_counterexample :
  reachable cfg0 any_event afterFirstEntry
  /\ orders (run cfg0 (EvEnterOk 2) quiet
               (run cfg0 (EvEnterOk 2) quiet afterFirstEntry))
     <> orders (run cfg0 (EvEnterOk 2) quiet afterFirstEntry).
Proof.
  unfold afterFirstEntry. split.
  - apply reachable_step; [apply reachable_initial|exact I].
  - intros H. apply (f_equal length) in H. vm_compute in H. discriminate.
Qed.

(** C4, amended. Delivering one of the four callbacks twice in a row for
    the same leg leaves what the strategy tracks (the phase, the four
    pending sets and the groups) as one delivery leaves it, and the second
    delivery returns or raises as the first did; the entry-canceled handler
    moreover leaves the whole strategy, its orders included, unchanged. The
    orders submitted may differ. *)
Theorem C4_tracker_idempotent cfg w p s :
  same_after_redelivery cfg w s (EvEnterOk p)
  /\ same_after_redelivery cfg w s (EvEnterCanceled p)
  /\ same_after_redelivery cfg w s (EvExitOk p)
  /\ same_after_redelivery cfg w s (EvExitCanceled p)
  /\ run cfg (EvEnterCanceled p) w (run cfg (EvEnterCanceled p) w s)
     = run cfg (EvEnterCanceled p) w s.
Proof.
  unfold same_after_redelivery, run; cbn [handler].
  split; [apply onEnterOk_twice|].
  split; [rewrite onEnterCanceled_twice; split; [done|];
          by rewrite !onEnterCanceled_spec|].
  split; [apply onExitOk_twice|].
  split; [apply onExitCanceled_twice|apply onEnterCanceled_twice].
Qed.

Lemma handlePlacingOrders_drained cfg w s :
  all_drained s -> pendingOrdersCompleted w = true ->
  handlePlacingOrders cfg w s
    = (Returned tt, set_state (transition_rule cfg w (state s)) s).
Proof.
  intros Hd Hc. unfold handlePlacingOrders. bind_step. unfold get at 1.
  apply drained_iff in Hd. rewrite Hd, Hc. cbn [negb].
  rewrite transition_rule_eq.
  destruct (bool_decide (state s = SQUARING_OFF)
            && time_geb (now w) (exitTime cfg)); [done|].
  by destruct (length (activePositions w) =? 0)%nat.
Qed.

(** The coordinators and the callbacks never leave the two polling
    phases. *)
Lemma run_keeps_pending_phase cfg ev w s :
  ev <> EvStrategyLogic -> pending_phase (state s) ->
  pending_phase (state (run cfg ev w s)).
Proof.
  intros Hev Hp. unfold run.
  destruct ev as [| | |p|p|p|p]; cbn [handler]; [done|..]; unfold exec.
  - destruct (decide (length (positions s) = maxEntries cfg)) as [He|He].
    { by rewrite (onResampledBars_full _ _ _ He). }
    destruct (atmStrike w) as [atm|] eqn:Ha.
    + destruct (onResampledBars_some cfg w s atm Ha He)
        as (sp & n & log & -> & _). by left.
    + by rewrite (onResampledBars_none _ _ _ Ha He).
  - destruct (closeAllPositions_spec cfg w s) as [log ->]. by right.
  - by destruct (onEnterOk_spec cfg w p s) as (r & log & ->).
  - done.
  - destruct (onExitOk_spec w p s)
      as (r & st & sl & log & -> & [(-> & _)|(q & -> & _)]);
      [done|by left].
  - destruct (onExitCanceled_spec cfg w p s)
      as (st & log & -> & [->|(-> & _)]); [done|by left].
Qed.

Lemma tick_keeps_undrained_phase cfg w s :
  pending_phase (state s) -> ~ all_drained s ->
  in_session cfg EvStrategyLogic w ->
  state (run cfg EvStrategyLogic w s) = state s.
Proof.
  intros Hp Hnd Hin. unfold run. cbn [handler].
  destruct (strategyLogic_cases cfg w s)
    as (st & [->|(_ & Hd & _)] & Hc); [|done].
  destruct Hc as [E|[[Ht _]|(_ & _ & He & _)]].
  - by rewrite E.
  - cbn in Hin. unfold time_geb in Ht. rewrite Hin in Ht. discriminate.
  - destruct Hp as [Hp|Hp]; rewrite Hp in He; discriminate.
Qed.

(** C3, as stated, fails: while the strategy is squaring off, with exit
    orders still pending, a trigger changes the phase to
    [PLACING_ORDERS]. *)
Lemma C3_counterexample :
  reachable cfg0 driven afterSquareOff
  /\ state afterSquareOff = SQUARING_OFF /\ ~ all_drained afterSquareOff
  /\ state (run cfg0 EvResampledBars stopsLiveAt1525 afterSquareOff)
     = PLACING_ORDERS.
Proof.
  unfold afterSquareOff, stopsLiveAt1525.
  split; [|split; [|split]].
  - apply reachable_runs; [apply reachable_initial|].
    vm_compute. repeat split; discriminate.
  - vm_compute. reflexivity.
  - intros H. apply drained_iff in H. vm_compute in H. discriminate.
  - vm_compute. reflexivity.
Qed.

(** In a polling phase none of the four callbacks changes the phase. *)
Lemma callbacks_keep_phase cfg w p s :
  pending_phase (state s) ->
  state (run cfg (EvEnterOk p) w s) = state s
  /\ state (run cfg (EvEnterCanceled p) w s) = state s
  /\ state (run cfg (EvExitOk p) w s) = state s
  /\ state (run cfg (EvExitCanceled p) w s) = state s.
Proof.
  intros Hp. unfold run, exec; cbn [handler].
  split; [by destruct (onEnterOk_spec cfg w p s) as (r & log & ->)|].
  split; [done|]. split.
  - destruct (onExitOk_spec w p s)
      as (r & st & sl & log & -> & [(-> & _)|(q & -> & Hs & _)]); [done|].
    cbn [snd state]. destruct Hp as [Hp|Hp]; congruence.
  - destruct (onExitCanceled_spec cfg w p s)
      as (st & log & -> & [->|(-> & Hs & _)]); [done|].
    cbn [snd state]. destruct Hp as [Hp|Hp]; congruence.
Qed.

Lemma trigger_phase cfg w s :
  state (run cfg EvResampledBars w s) = state s
  \/ state (run cfg EvResampledBars w s) = PLACING_ORDERS
     /\ atmStrike w <> None /\ length (positions s) <> maxEntries cfg.
Proof.
  unfold run, exec; cbn [handler].
  destruct (decide (length (positions s) = maxEntries cfg)) as [He|He].
  { rewrite (onResampledBars_full _ _ _ He). by left. }
  destruct (atmStrike w) as [atm|] eqn:Ha.
  - destruct (onResampledBars_some cfg w s atm Ha He)
      as (sp & n & log & -> & _). right. done.
  - rewrite (onResampledBars_none _ _ _ Ha He). by left.
Qed.

(** C3, amended. While the phase is [PLACING_ORDERS] or [SQUARING_OFF]:
    the recomputation [handlePlacingOrders] changes the phase only if all
    four pending sets are empty, and when they are (and the broker has no
    order pending) the new phase is given by the transition rule; a tick
    within the session that finds a set non-empty leaves the phase as it
    is; none of the four callbacks changes the phase; the only other
    changes are those of the coordinators, whatever the sets hold: a
    trigger that enters a group sets [PLACING_ORDERS] (also out of
    [SQUARING_OFF]) and [closeAllPositions] sets [SQUARING_OFF]. *)
Theorem C3_phase_recomputation cfg w s :
  pending_phase (state s) ->
  (state (exec (handlePlacingOrders cfg w) s) <> state s ->
     all_drained s /\ pendingOrdersCompleted w = true
     /\ state (exec (handlePlacingOrders cfg w) s)
        = transition_rule cfg w (state s))
  /\ (all_drained s -> pendingOrdersCompleted w = true ->
      state (exec (handlePlacingOrders cfg w) s)
        = transition_rule cfg w (state s))
  /\ (forall ev, ev <> EvStrategyLogic ->
      pending_phase (state (run cfg ev w s)))
  /\ (~ all_drained s -> in_session cfg EvStrategyLogic w ->
      state (run cfg EvStrategyLogic w s) = state s)
  /\ (forall p,
        state (run cfg (EvEnterOk p) w s) = state s
        /\ state (run cfg (EvEnterCanceled p) w s) = state s
        /\ state (run cfg (EvExitOk p) w s) = state s
        /\ state (run cfg (EvExitCanceled p) w s) = state s)
  /\ (state (run cfg EvResampledBars w s) = state s
      \/ state (run cfg EvResampledBars w s) = PLACING_ORDERS
         /\ atmStrike w <> None /\ length (positions s) <> maxEntries cfg)
  /\ state (run cfg EvCloseAllPositions w s) = SQUARING_OFF.
Proof.
  intros Hp. split; [|split; [|split; [|split; [|split; [|split]]]]].
  - unfold exec.
    destruct (handlePlacingOrders_spec cfg w s)
      as (st & -> & [->|(Hd & Hc & ->)]); cbn [snd set_state state];
      [done|by intros _].
  - intros Hd Hc. unfold exec.
    by rewrite (handlePlacingOrders_drained _ _ _ Hd Hc).
  - intros ev Hev. by apply run_keeps_pending_phase.
  - intros Hnd Hin. by apply tick_keeps_undrained_phase.
  - intros p. by apply callbacks_keep_phase.
  - apply trigger_phase.
  - unfold run, exec; cbn [handler].
    by destruct (closeAllPositions_spec cfg w s) as [log ->].
Qed.

Lemma C3_witness :
  (state (exec (handlePlacingOrders cfg0 stopsLiveAt1525) afterSquareOff)
     <> state afterSquareOff ->
     all_drained afterSquareOff
     /\ pendingOrdersCompleted stopsLiveAt1525 = true
     /\ state (exec (handlePlacingOrders cfg0 stopsLiveAt1525) afterSquareOff)
        = transition_rule cfg0 stopsLiveAt1525 (state afterSquareOff))
  /\ (all_drained afterSquareOff ->
      pendingOrdersCompleted stopsLiveAt1525 = true ->
      state (exec (handlePlacingOrders cfg0 stopsLiveAt1525) afterSquareOff)
        = transition_rule cfg0 stopsLiveAt1525 (state afterSquareOff))
  /\ (forall ev, ev <> EvStrategyLogic ->
      pending_phase (state (run cfg0 ev stopsLiveAt1525 afterSquareOff)))
  /\ (~ all_drained afterSquareOff ->
      in_session cfg0 EvStrategyLogic stopsLiveAt1525 ->
      state (run cfg0 EvStrategyLogic stopsLiveAt1525 afterSquareOff)
        = state afterSquareOff)
  /\ (forall p,
        state (run cfg0 (EvEnterOk p) stopsLiveAt1525 afterSquareOff)
          = state afterSquareOff
        /\ state (run cfg0 (EvEnterCanceled p) stopsLiveAt1525 afterSquareOff)
           = state afterSquareOff
        /\ state (run cfg0 (EvExitOk p) stopsLiveAt1525 afterSquareOff)
           = state afterSquareOff
        /\ state (run cfg0 (EvExitCanceled p) stopsLiveAt1525 afterSquareOff)
           = state afterSquareOff)
  /\ (state (run cfg0 EvResampledBars stopsLiveAt1525 afterSquareOff)
        = state afterSquareOff
      \/ state (run cfg0 EvResampledBars stopsLiveAt1525 afterSquareOff)
           = PLACING_ORDERS
         /\ atmStrike stopsLiveAt1525 <> None
         /\ length (positions afterSquareOff) <> maxEntries cfg0)
  /\ state (run cfg0 EvCloseAllPositions stopsLiveAt1525 afterSquareOff)
     = SQUARING_OFF.
Proof.
  apply (C3_phase_recomputation cfg0 stopsLiveAt1525 afterSquareOff).
  right. vm_compute. reflexivity.
Defined.

Lemma elem_of_live w l (x : option Leg) :
  x ∈ (list_to_set (Some <$> List.filter (exitActive w) l)
         : gset (option Leg)) ->
  exists p, x = Some p /\ exitActive w p = true.
Proof.
  intros H. apply elem_of_list_to_set in H.
  apply list_elem_of_fmap in H as (p & -> & Hp).
  apply list_elem_of_In in Hp. apply filter_In in Hp as [_ Hp]. eauto.
Qed.

(** What one event can do to the identities and to the three sets: the
    identities only grow; [pendingEntry] gains only [None] or new
    identities, and loses the leg whose entry is confirmed; the other two
    sets gain only legs whose exit order is live. *)
Lemma run_frame cfg ev w s :
  (nextLeg s <= nextLeg (run cfg ev w s))%nat
  /\ (forall x, x ∈ pendingEntry (run cfg ev w s) ->
      x ∈ pendingEntry s \/ x = None
      \/ exists p, x = Some p /\ (nextLeg s <= p)%nat)
  /\ (forall p, ev = EvEnterOk p -> Some p ∉ pendingEntry (run cfg ev w s))
  /\ (forall x, x ∈ pendingSLToCost (run cfg ev w s)
                  ∪ pendingCancelExit (run cfg ev w s) ->
      x ∈ pendingSLToCost s ∪ pendingCancelExit s
      \/ exists p, x = Some p /\ exitActive w p = true).
Proof.
  assert (Hclose : forall s0 : Strategy,
    nextLeg s0 = nextLeg s -> pendingEntry s0 = pendingEntry s ->
    pendingSLToCost s0 = pendingSLToCost s ->
    pendingCancelExit s0 = pendingCancelExit s ->
    (nextLeg s <= nextLeg (exec (closeAllPositions cfg w) s0))%nat
    /\ (forall x, x ∈ pendingEntry (exec (closeAllPositions cfg w) s0) ->
        x ∈ pendingEntry s \/ x = None
        \/ exists p, x = Some p /\ (nextLeg s <= p)%nat)
    /\ (forall x, x ∈ pendingSLToCost (exec (closeAllPositions cfg w) s0)
                    ∪ pendingCancelExit (exec (closeAllPositions cfg w) s0) ->
        x ∈ pendingSLToCost s ∪ pendingCancelExit s
        \/ exists p, x = Some p /\ exitActive w p = true)).
  { intros s0 E1 E2 E3 E4. unfold exec.
    destruct (closeAllPositions_spec cfg w s0) as [log ->].
    cbn [snd nextLeg pendingEntry pendingSLToCost pendingCancelExit].
    rewrite E1, E2, E3, E4. split; [lia|]. split; [by left|].
    intros x Hx. apply elem_of_union in Hx as [Hx|Hx]; [left; set_solver|].
    apply elem_of_union in Hx as [Hx|Hx]; [|left; set_solver].
    apply elem_of_live in Hx as (p & -> & Ha). right. by exists p. }
  unfold run. destruct ev as [| | |p|p|p|p]; cbn [handler].
  - destruct (strategyLogic_cases cfg w s)
      as (st & _ & [E|[[_ E]|(_ & _ & _ & E)]]); rewrite E.
    + cbn [set_state nextLeg pendingEntry pendingSLToCost pendingCancelExit].
      repeat split; [lia|by left|done|by left].
    + cbn. repeat split; [lia|set_solver|done|set_solver].
    + destruct (Hclose (set_state st s)) as (H1 & H2 & H3); try done.
  - unfold exec.
    destruct (decide (length (positions s) = maxEntries cfg)) as [He|He].
    { rewrite (onResampledBars_full _ _ _ He). cbn [snd].
      repeat split; [lia|by left|done|by left]. }
    destruct (atmStrike w) as [atm|] eqn:Ha.
    + destruct (onResampledBars_some cfg w s atm Ha He)
        as (sp & n & log & -> & Hn & Hb & _).
      cbn [snd nextLeg pendingEntry pendingSLToCost pendingCancelExit].
      repeat split; [done| |done|by left].
      intros x Hx.
      assert (x ∈ pendingEntry s
              \/ x ∈ [ceHedge sp; peHedge sp; ceShort sp; peShort sp])
        as [?|Hin] by set_solver; [by left|right].
      destruct x as [q|]; [right|by left]. exists q. split; [done|].
      by destruct (Hb _ q Hin eq_refl).
    + rewrite (onResampledBars_none _ _ _ Ha He).
      cbn [snd nextLeg pendingEntry pendingSLToCost pendingCancelExit].
      repeat split; [lia|by left|done|by left].
  - destruct (Hclose s) as (H1 & H2 & H3); try done.
  - unfold exec. destruct (onEnterOk_spec cfg w p s) as (r & log & ->).
    cbn [snd nextLeg pendingEntry pendingSLToCost pendingCancelExit].
    repeat split; [lia|set_solver| |by left].
    intros q [= <-]. set_solver.
  - unfold exec. rewrite onEnterCanceled_spec.
    cbn [snd nextLeg pendingEntry pendingSLToCost pendingCancelExit].
    repeat split; [lia|set_solver|done|by left].
  - unfold exec.
    destruct (onExitOk_spec w p s)
      as (r & st & sl & log & -> & [(-> & -> & _)|(q & -> & _ & -> & Hq & _)]);
      cbn [snd nextLeg pendingEntry pendingSLToCost pendingCancelExit].
    + repeat split; [lia|by left|done|by left].
    + repeat split; [lia|by left|done|].
      intros x Hx.
      assert (x = Some q \/ x ∈ pendingSLToCost s ∪ pendingCancelExit s)
        as [->|?] by set_solver; [right|by left].
      by exists q.
  - unfold exec.
    destruct (onExitCanceled_spec cfg w p s) as (st & log & -> & _).
    cbn [snd nextLeg pendingEntry pendingSLToCost pendingCancelExit].
    repeat split; [lia|by left|done|].
    intros x Hx. left. set_solver.
Qed.

Lemma run_confirmed_apart cfg past ev w s :
  confirmed_apart past s -> broker_plausible past s ev w ->
  confirmed_apart (past ++ [ev]) (run cfg ev w s).
Proof.
  intros [Hc Hx] [Hnew Hlive].
  destruct (run_frame cfg ev w s) as (Hn & Hpe & Hok & Hsl).
  split.
  - intros p Hin. apply in_app_or in Hin as [Hin|[Heq|[]]].
    + destruct (Hc p Hin) as [Hlt Hnot]. split; [lia|].
      intros Hp. destruct (Hpe _ Hp) as [?|[?|(q & [= <-] & ?)]];
        [done|done|lia].
    + split; [|by apply Hok]. pose proof (Hnew p Heq). lia.
  - intros x Hin. destruct (Hsl x Hin) as [Hold|(p & -> & Ha)].
    + destruct (Hx x Hold) as (p & -> & Hp). exists p. split; [done|].
      apply in_or_app. by left.
    + exists p. split; [done|]. apply in_or_app. left. by apply Hlive.
Qed.

Lemma runs_confirmed_apart cfg tr : forall past s,
  confirmed_apart past s -> plausible cfg past tr s ->
  exists past', confirmed_apart past' (runs cfg tr s).
Proof.
  induction tr as [|[ev w] tr IH]; intros past s Hi Hp; [by exists past|].
  destruct Hp as [Hb Hp]. cbn [runs].
  apply (IH (past ++ [ev])); [|done]. by apply run_confirmed_apart.
Qed.

Lemma stopThenClose_plausible : plausible cfg0 [] stopThenClose initial.
Proof.
  cbn [plausible stopThenClose shortsConfirmed app].
  repeat (split; [split;
    [intros q Hq; first [discriminate Hq | injection Hq as <-; vm_compute; lia]
    |intros q Hq; unfold quiet, stopsLive, snapshot in Hq;
     cbn [exitActive] in Hq;
     first [discriminate
           |apply orb_true_iff in Hq as [Hq|Hq];
            apply bool_decide_eq_true in Hq; subst q; cbn; tauto]]|]).
  exact I.
Qed.

(** C2, as stated, fails: after leg 2 is stopped out (leg 3 goes to
    [pendingSLToCost], its stop being cancelled) and everything is closed
    before that cancel is confirmed, leg 3 is in [pendingSLToCost] and in
    [pendingCancelExit] at once. *)
Lemma C2_counterexample :
  plausible cfg0 [] stopThenClose initial
  /\ reachable cfg0 any_event afterStopThenClose
  /\ Some 3%nat ∈ pendingSLToCost afterStopThenClose
  /\ Some 3%nat ∈ pendingCancelExit afterStopThenClose.
Proof.
  unfold afterStopThenClose. split; [apply stopThenClose_plausible|].
  split; [|split].
  - apply reachable_runs; [apply reachable_initial|].
    cbn [admitted stopThenClose shortsConfirmed app]. unfold any_event. tauto.
  - apply (proj1 (bool_decide_eq_true _)). vm_compute. reflexivity.
  - apply (proj1 (bool_decide_eq_true _)). vm_compute. reflexivity.
Qed.

(** C2, amended. Whatever the interleaving, as long as the broker
    confirms the entry only of positions it has handed out and holds a live
    exit order only for positions whose entry it has confirmed, no leg is in
    [pendingEntry] and, at the same time, in [pendingSLToCost] or in
    [pendingCancelExit]: the entry-confirmed handler takes the leg out of
    [pendingEntry] before any exit order of it exists, and later entries
    only add new positions. (A leg can be in [pendingSLToCost] and
    [pendingCancelExit] together.) *)
Theorem C2_entry_apart_from_exits cfg tr :
  plausible cfg [] tr initial ->
  forall x, x ∈ pendingEntry (runs cfg tr initial) ->
    (x ∉ pendingSLToCost (runs cfg tr initial))
    /\ (x ∉ pendingCancelExit (runs cfg tr initial)).
Proof.
  intros Hp.
  destruct (runs_confirmed_apart cfg tr [] initial) as [past [Hc Hx]];
    [|done|].
  { split; [intros p []|]. intros x Hx. cbn in Hx. set_solver. }
  intros x Hin.
  assert (Hno : x ∉ pendingSLToCost (runs cfg tr initial)
                    ∪ pendingCancelExit (runs cfg tr initial)).
  { intros Hu. destruct (Hx x Hu) as (p & -> & Hpast).
    by destruct (Hc p Hpast). }
  set_solver.
Qed.

Lemma C2_witness :
  Some 0%nat ∈ pendingEntry (runs cfg0 stopThenClose initial)
  /\ (Some 0%nat ∉ pendingSLToCost (runs cfg0 stopThenClose initial))
  /\ (Some 0%nat ∉ pendingCancelExit (runs cfg0 stopThenClose initial)).
Proof.
  assert (Hin : Some 0%nat ∈ pendingEntry (runs cfg0 stopThenClose initial)).
  { apply (proj1 (bool_decide_eq_true _)). vm_compute. reflexivity. }
  split; [exact Hin|].
  apply (C2_entry_apart_from_exits cfg0 stopThenClose
           stopThenClose_plausible (Some 0%nat) Hin).
Defined.

Lemma time_ltb_spec a b :
  time_ltb a b = true <->
  (hour a < hour b
   \/ hour a = hour b
      /\ (minute a < minute b
          \/ minute a = minute b
             /\ (second a < second b
                 \/ second a = second b /\ microsecond a < microsecond b)))%nat.
Proof.
  unfold time_ltb.
  repeat first [rewrite orb_true_iff | rewrite andb_true_iff].
  rewrite !Nat.ltb_lt, !Nat.eqb_eq. tauto.
Qed.

Lemma time_ltb_trans a b c :
  time_ltb a b = true -> time_ltb b c = true -> time_ltb a c = true.
Proof. rewrite !time_ltb_spec. lia. Qed.

Lemma time_ltb_irrefl a : time_ltb a a = false.
Proof.
  destruct (time_ltb a a) eqn:E; [|done].
  apply time_ltb_spec in E. lia.
Qed.

Lemma time_ltb_asym a b : time_ltb a b = true -> time_ltb b a = false.
Proof.
  intros H. destruct (time_ltb b a) eqn:E; [|done].
  pose proof (time_ltb_trans _ _ _ H E) as Hc.
  by rewrite time_ltb_irrefl in Hc.
Qed.

Lemma last_cons_nonempty {A} (a d : A) l :
  l <> [] -> List.last (a :: l) d = List.last l d.
Proof. by destruct l. Qed.

(** Past a key that is not before the query, an increasing schedule has
    nothing before the query. *)
Lemma increasing_none_after k v tl t :
  increasing ((k, v) :: tl) -> time_ltb k t = false ->
  List.filter (fun kv => time_ltb (fst kv) t) tl = [].
Proof.
  intros Hs Hk. apply StronglySorted_inv in Hs as [_ Hall].
  induction tl as [|[k' v'] tl IH]; [done|].
  apply Forall_cons in Hall as [Hlt Hall]. cbn [List.filter fst] in *.
  destruct (time_ltb k' t) eqn:E; [|by apply IH].
  by rewrite (time_ltb_trans _ _ _ Hlt E) in Hk.
Qed.

Lemma stopLossPercentage_greatest table t k v :
  increasing table -> In (k, v) table -> time_ltb k t = true ->
  (forall k' v', In (k', v') table -> time_ltb k' t = true ->
     time_ltb k' k = true \/ k' = k) ->
  stopLossPercentage table t = v.
Proof.
  unfold stopLossPercentage. cbv zeta.
  induction table as [|[k0 v0] tl IH]; intros Hs Hin Hk Hmax; [done|].
  pose proof Hs as Hs'. apply StronglySorted_inv in Hs' as [Hstl Hall].
  cbn [List.filter fst]. destruct Hin as [[= -> ->]|Hin].
  - rewrite Hk.
    assert (List.filter (fun kv => time_ltb (fst kv) t) tl = []) as ->;
      [|done].
    clear IH Hs Hstl. induction tl as [|[k' v'] tl IH]; [done|].
    apply Forall_cons in Hall as [Hlt Hall]. cbn [List.filter fst] in *.
    destruct (time_ltb k' t) eqn:E.
    + destruct (Hmax k' v' ltac:(right; by left) E) as [Hc| ->].
      * by rewrite (time_ltb_asym _ _ Hlt) in Hc.
      * by rewrite time_ltb_irrefl in Hlt.
    + apply IH; [|done]. intros k'' v'' H Hq.
      apply (Hmax k'' v''); [|done].
      destruct H as [H|H]; [by left|right; by right].
  - assert (Hv : List.last
               (map snd (List.filter (fun kv => time_ltb (fst kv) t) tl))
               20%Z = v).
    { apply IH; [done|done|done|].
      intros k' v' H Hq. apply (Hmax k' v'); [by right|done]. }
    assert (Hne : map snd (List.filter (fun kv => time_ltb (fst kv) t) tl)
                  <> []).
    { intros He. apply map_eq_nil in He.
      assert (Hf : In (k, v)
                (List.filter (fun kv => time_ltb (fst kv) t) tl))
        by (apply filter_In; by split).
      by rewrite He in Hf. }
    destruct (time_ltb k0 t); [|done].
    cbn [map]. by rewrite last_cons_nonempty.
Qed.

Lemma stopLossPercentage_default table t :
  (forall k v, In (k, v) table -> time_ltb k t = false) ->
  stopLossPercentage table t = 20%Z.
Proof.
  unfold stopLossPercentage. cbv zeta.
  induction table as [|[k0 v0] tl IH]; intros H; [done|].
  cbn [List.filter fst]. rewrite (H k0 v0) by (by left).
  apply IH. intros k v Hin. apply (H k v). by right.
Qed.

Lemma stopLossPercentage_at_key l1 l2 t v :
  increasing (l1 ++ (t, v) :: l2) ->
  stopLossPercentage (l1 ++ (t, v) :: l2) t = stopLossPercentage l1 t.
Proof.
  intros Hs. unfold stopLossPercentage. cbv zeta.
  rewrite List.filter_app. cbn [List.filter fst].
  rewrite time_ltb_irrefl.
  assert (increasing ((t, v) :: l2)) as Hs2.
  { clear -Hs. induction l1 as [|a l1 IH]; [done|].
    apply StronglySorted_inv in Hs as [Hs _]. by apply IH. }
  rewrite (increasing_none_after t v l2 t Hs2 (time_ltb_irrefl t)).
  by rewrite app_nil_r.
Qed.

Lemma stopLossesTable_increasing : increasing stopLossesTable.
Proof. unfold increasing, stopLossesTable. repeat constructor. Qed.

(** C7. For a schedule whose keys increase in dictionary order (as the
    constructor's do) and every query time: the lookup returns the value of
    the greatest key strictly before the query; it returns the default 20
    when no key is strictly before the query; and a query equal to a
    scheduled key does not select that key but looks among the keys before
    it. *)
Theorem C7_stop_loss_lookup table t :
  increasing table ->
  (forall k v, In (k, v) table -> time_ltb k t = true ->
     (forall k' v', In (k', v') table -> time_ltb k' t = true ->
        time_ltb k' k = true \/ k' = k) ->
     stopLossPercentage table t = v)
  /\ ((forall k v, In (k, v) table -> time_ltb k t = false) ->
      stopLossPercentage table t = 20%Z)
  /\ (forall l1 l2 v, table = l1 ++ (t, v) :: l2 ->
      stopLossPercentage table t = stopLossPercentage l1 t).
Proof.
  intros Hs. split; [|split].
  - intros k v Hin Hk Hmax. by apply (stopLossPercentage_greatest table t k v).
  - apply stopLossPercentage_default.
  - intros l1 l2 v ->. by apply stopLossPercentage_at_key.
Qed.

Lemma C7_witness :
  (forall k v, In (k, v) stopLossesTable -> time_ltb k (hm 10 30) = true ->
     (forall k' v', In (k', v') stopLossesTable ->
        time_ltb k' (hm 10 30) = true -> time_ltb k' k = true \/ k' = k) ->
     stopLossPercentage stopLossesTable (hm 10 30) = v)
  /\ ((forall k v, In (k, v) stopLossesTable ->
         time_ltb k (hm 10 30) = false) ->
      stopLossPercentage stopLossesTable (hm 10 30) = 20%Z)
  /\ (forall l1 l2 v, stopLossesTable = l1 ++ (hm 10 30, v) :: l2 ->
      stopLossPercentage stopLossesTable (hm 10 30)
        = stopLossPercentage l1 (hm 10 30)).
Proof.
  apply (C7_stop_loss_lookup stopLossesTable (hm 10 30)).
  unfold increasing, stopLossesTable. repeat constructor.
Defined.

(** At 10:30 exactly the entry of 10:30 (45) does not apply yet; before
    the first key the default does. *)
Example stopLossPercentage_boundary :
  stopLossPercentage stopLossesTable (hm 10 30) = 40%Z
  /\ stopLossPercentage stopLossesTable (mkTime 10 30 0 1) = 45%Z
  /\ stopLossPercentage stopLossesTable (hm 9 15) = 20%Z.
Proof. repeat split. Qed.

(** * The protection pricer in binary64 *)

(** The constants of the pricer, in units of [2^-1074]: the literal [0.05]
    is [7205759403792794 * 2^-57], and [100 * (1 + 15 / 100.0)] is the
    float just below 115. *)
Example pricer_constants :
  PyFloat.of_ratio 5 100 = PyFloat.Fin (7205759403792794 * 2 ^ 1017)
  /\ PyFloat.add (PyFloat.of_Z 1)
       (PyFloat.div (PyFloat.of_Z 15) (PyFloat.of_Z 100))
     = PyFloat.Fin (5179139571476070 * 2 ^ 1022)
  /\ protectedUp (PyFloat.of_Z 15) (PyFloat.of_Z 100)
     = PyFloat.Fin (115 * 2 ^ 1074 - 2 ^ 1028).
Proof. split; [|split]; vm_compute; reflexivity. Qed.

(** The same three operations, computed by the standard library's
    IEEE-754 specification at precision 53 and maximal exponent 1024. *)
Example pricer_agrees_with_SpecFloat :
  let f15 := PyFloat.of_Z 15 in
  let f100 := PyFloat.of_Z 100 in
  let f1 := PyFloat.of_Z 1 in
  PyFloat.to_SF (PyFloat.div f15 f100)
    = SFdiv 53 1024 (PyFloat.to_SF f15) (PyFloat.to_SF f100)
  /\ PyFloat.to_SF (PyFloat.add f1 (PyFloat.div f15 f100))
     = SFadd 53 1024 (PyFloat.to_SF f1)
         (PyFloat.to_SF (PyFloat.div f15 f100))
  /\ PyFloat.to_SF (protectedUp f15 f100)
     = SFmul 53 1024 (PyFloat.to_SF f100)
         (PyFloat.to_SF (PyFloat.add f1 (PyFloat.div f15 f100))).
Proof. split; [|split]; vm_compute; reflexivity. Qed.

(** C8. The code does not yield 115.00 for reference price 100,
    protection 15, tick 0.05, buy: [100 * (1 + 15 / 100.0)] is the float
    just below 115, its remainder by [0.05] is almost a whole tick, and the
    limit price is the float of 114.95, below 115. *)
Theorem C8_buy_100_15_is_not_115 :
  entryLimitPrice (tickSize cfg0) (marketProtectionPercentage cfg0) BUY
    (PyFloat.of_Z 100) = PyFloat.of_ratio 11495 100
  /\ PyFloat.ltb
       (entryLimitPrice (tickSize cfg0) (marketProtectionPercentage cfg0) BUY
          (PyFloat.of_Z 100))
       (PyFloat.of_Z 115) = true
  /\ entryLimitPrice (tickSize cfg0) (marketProtectionPercentage cfg0) BUY
       (PyFloat.of_Z 100) <> PyFloat.of_Z 115.
Proof.
  assert (E : entryLimitPrice (tickSize cfg0)
                (marketProtectionPercentage cfg0) BUY (PyFloat.of_Z 100)
              = PyFloat.of_ratio 11495 100) by (vm_compute; reflexivity).
  rewrite E. split; [reflexivity|]. split; [vm_compute; reflexivity|].
  intros H. apply (f_equal (fun x => PyFloat.eqb x (PyFloat.of_Z 115))) in H.
  vm_compute in H. discriminate.
Qed.


(** * Monotonicity of rounding and of the pricer *)

Section Rounding.
Local Open Scope Z_scope.
Import PyFloat.

Lemma rnd_pos_eq a b :
  rnd_pos a b =
    match 2 * a ?= b * (below (a / b) + (below (a / b) + spacing (a / b))) with
    | Lt => below (a / b)
    | Gt => below (a / b) + spacing (a / b)
    | Eq => if Z.even (below (a / b) / spacing (a / b)) then below (a / b)
            else below (a / b) + spacing (a / b)
    end.
Proof. reflexivity. Qed.

Lemma spacing_pos q : 0 < spacing q.
Proof. unfold spacing. apply Z.pow_pos_nonneg; lia. Qed.

Lemma below_bounds q : below q <= q < below q + spacing q.
Proof.
  unfold below. pose proof (spacing_pos q) as Hu.
  pose proof (Z.div_mod q (spacing q) ltac:(lia)) as Hd.
  pose proof (Z.mod_pos_bound q (spacing q) Hu). nia.
Qed.

Lemma below_nonneg q : 0 <= q -> 0 <= below q.
Proof.
  intros Hq. unfold below. pose proof (spacing_pos q).
  apply Z.mul_nonneg_nonneg; [|lia]. apply Z.div_pos; lia.
Qed.

(** Two non-negative values lie in the same cell of the grid, or the
    cell of the smaller ends before the cell of the larger starts. *)
Lemma cells q q' :
  0 <= q <= q' ->
  (spacing q = spacing q' /\ below q = below q')
  \/ below q + spacing q <= below q'.
Proof.
  intros [Hq Hqq].
  pose proof (Z.log2_le_mono q q' Hqq) as Hlog.
  destruct (Z.eq_dec (Z.max 0 (Z.log2 q - 52)) (Z.max 0 (Z.log2 q' - 52)))
    as [Hk|Hk].
  - assert (Hu : spacing q = spacing q') by (unfold spacing; by rewrite Hk).
    unfold below. rewrite <- Hu. pose proof (spacing_pos q) as Hpos.
    pose proof (Z.div_le_mono q q' (spacing q) Hpos Hqq) as Hdiv.
    destruct (Z.eq_dec (q / spacing q) (q' / spacing q)) as [He|He].
    + left. by rewrite He.
    + right. nia.
  - right.
    set (L := Z.log2 q') in *.
    assert (HL : 53 <= L) by lia.
    assert (Hq' : 0 < q').
    { destruct (Z.lt_ge_cases 0 q') as [?|Hn]; [done|].
      pose proof (Z.log2_nonpos q' Hn). lia. }
    assert (Hu' : spacing q' = 2 ^ (L - 52)).
    { unfold spacing. fold L. f_equal. lia. }
    pose proof (Z.log2_spec q' Hq') as [Hlow _]. fold L in Hlow.
    assert (Hsplit : 2 ^ L = 2 ^ 52 * 2 ^ (L - 52)).
    { rewrite <- Z.pow_add_r by lia. f_equal. lia. }
    assert (Hlo' : 2 ^ L <= below q').
    { unfold below. rewrite Hu'.
      assert (0 < 2 ^ (L - 52)) by (apply Z.pow_pos_nonneg; lia).
      assert (2 ^ 52 <= q' / 2 ^ (L - 52)).
      { apply Z.div_le_lower_bound; lia. }
      nia. }
    set (k := Z.max 0 (Z.log2 q - 52)) in *.
    assert (Hkk : 0 <= k <= L) by lia.
    assert (Hqlt : q < 2 ^ L).
    { destruct (Z.eq_dec q 0) as [->|Hq0].
      - apply Z.pow_pos_nonneg; lia.
      - pose proof (Z.log2_spec q ltac:(lia)) as [_ Hup].
        assert (2 ^ Z.succ (Z.log2 q) <= 2 ^ L)
          by (apply Z.pow_le_mono_r; lia).
        lia. }
    assert (Hsplit2 : 2 ^ L = 2 ^ (L - k) * 2 ^ k).
    { rewrite <- Z.pow_add_r by lia. f_equal. lia. }
    assert (Hhi : below q + spacing q <= 2 ^ L).
    { unfold below, spacing. fold k.
      assert (Hpk : 0 < 2 ^ k) by (apply Z.pow_pos_nonneg; lia).
      assert (q / 2 ^ k < 2 ^ (L - k)).
      { apply Z.div_lt_upper_bound; [done|]. lia. }
      nia. }
    lia.
Qed.

Lemma div_le_cross a b c d :
  0 < b -> 0 < d -> a * d <= c * b -> a / b <= c / d.
Proof.
  intros Hb Hd H. apply Z.div_le_lower_bound; [done|].
  pose proof (Z.mul_div_le a b Hb) as Hm.
  assert (a / b * b * d <= c * b) by nia. nia.
Qed.

Lemma rnd_pos_cell a b :
  rnd_pos a b = below (a / b)
  \/ rnd_pos a b = below (a / b) + spacing (a / b).
Proof.
  rewrite rnd_pos_eq.
  destruct (_ ?= _); [destruct (Z.even _)|..]; auto.
Qed.

Lemma rnd_pos_nonneg a b : 0 <= a -> 0 < b -> 0 <= rnd_pos a b.
Proof.
  intros Ha Hb.
  assert (0 <= a / b) by (apply Z.div_pos; lia).
  pose proof (below_nonneg (a / b) ltac:(done)).
  pose proof (spacing_pos (a / b)).
  destruct (rnd_pos_cell a b) as [->| ->]; lia.
Qed.

(** Rounding to nearest is monotone. *)
Lemma rnd_pos_mono a b c d :
  0 <= a -> 0 < b -> 0 < d -> a * d <= c * b ->
  rnd_pos a b <= rnd_pos c d.
Proof.
  intros Ha Hb Hd H.
  assert (Hq : 0 <= a / b <= c / d).
  { split; [apply Z.div_pos; lia|by apply div_le_cross]. }
  pose proof (spacing_pos (a / b)) as Hu.
  pose proof (spacing_pos (c / d)) as Hu'.
  destruct (cells _ _ Hq) as [[Hsame Hlo]|Hapart].
  - rewrite !rnd_pos_eq. rewrite <- Hsame, <- Hlo.
    set (lo := below (a / b)) in *. set (u := spacing (a / b)) in *.
    destruct (Z.compare_spec (2 * a) (b * (lo + (lo + u)))) as [E1|E1|E1];
      destruct (Z.compare_spec (2 * c) (d * (lo + (lo + u)))) as [E2|E2|E2];
      try destruct (Z.even (lo / u)); try lia; exfalso; nia.
  - destruct (rnd_pos_cell a b) as [->| ->];
      destruct (rnd_pos_cell c d) as [->| ->]; lia.
Qed.

Lemma rnd_mono a b c d :
  0 < b -> 0 < d -> a * d <= c * b -> rnd a b <= rnd c d.
Proof.
  intros Hb Hd H. unfold rnd.
  destruct (Z.ltb_spec a 0) as [Ha|Ha]; destruct (Z.ltb_spec c 0) as [Hc|Hc].
  - assert (rnd_pos (- c) d <= rnd_pos (- a) b);
      [apply rnd_pos_mono; lia|lia].
  - pose proof (rnd_pos_nonneg (- a) b ltac:(lia) Hb).
    pose proof (rnd_pos_nonneg c d Hc Hd). lia.
  - exfalso. nia.
  - by apply rnd_pos_mono.
Qed.

Lemma rnd_nonneg a b : 0 <= a -> 0 < b -> 0 <= rnd a b.
Proof.
  intros Ha Hb. unfold rnd. destruct (Z.ltb_spec a 0); [lia|].
  by apply rnd_pos_nonneg.
Qed.
End Rounding.

Section PricerMonotone.
Local Open Scope Z_scope.
Import PyFloat.

Lemma one_ulps_pos : 0 < one_ulps.
Proof. unfold one_ulps. apply Z.pow_pos_nonneg; lia. Qed.



Lemma mk_fin_inv n m : mk n = Fin m -> m = n /\ Z.abs n < overflow_ulps.
Proof.
  unfold mk. destruct (Z.leb_spec overflow_ulps (Z.abs n)); [discriminate|].
  intros [= <-]. done.
Qed.

Lemma mk_fin n : Z.abs n < overflow_ulps -> mk n = Fin n.
Proof.
  intros H. unfold mk.
  destruct (Z.leb_spec overflow_ulps (Z.abs n)); [lia|done].
Qed.

(** A rounding at or below a finite one is finite and at or below it. *)
Lemma round_mono_fin a b c d m :
  0 <= a -> 0 < b -> 0 < d -> a * d <= c * b -> round c d = Fin m ->
  round a b = Fin (rnd a b) /\ 0 <= rnd a b <= m.
Proof.
  intros Ha Hb Hd H Hc. apply mk_fin_inv in Hc as [-> Hov].
  pose proof (rnd_mono a b c d Hb Hd H).
  pose proof (rnd_nonneg a b Ha Hb).
  split; [|lia]. apply mk_fin. lia.
Qed.



Lemma floor_fin t m :
  0 < t -> 0 <= m ->
  getRoundedOffPriceByTickSize (Fin t) (Fin m) = round (t * (m / t)) 1.
Proof.
  intros Ht Hm. unfold getRoundedOffPriceByTickSize, rem, fmod.
  destruct (Z.eqb_spec t 0); [lia|].
  rewrite Z.rem_mod_nonneg by lia.
  pose proof (Z.mod_pos_bound m t Ht) as Hr.
  pose proof (Z.div_mod m t ltac:(lia)) as Hdm.
  assert (E : (if is_zero (Fin (m mod t)) then Fin 0
               else if negb (Bool.eqb (is_neg (Fin t))
                               (is_neg (Fin (m mod t))))
                    then add (Fin (m mod t)) (Fin t)
                    else Fin (m mod t)) = Fin (m mod t)).
  { unfold is_zero, is_neg.
    destruct (Z.eqb_spec (m mod t) 0) as [->|]; [done|].
    destruct (Z.ltb_spec t 0); [lia|].
    destruct (Z.ltb_spec (m mod t) 0); [lia|done]. }
  rewrite E. unfold sub, opp, add. f_equal. lia.
Qed.









End PricerMonotone.



(** The premises on finiteness hold at these inputs, and a buy stays
    monotone beyond 100 percent, where the sell price would be negative. *)
Example pricer_premises_hold :
  (exists rb rs m2,
     entryLimitPrice (PyFloat.Fin tick005) (PyFloat.Fin pct1502) BUY
       (PyFloat.Fin close100) = PyFloat.Fin rb
     /\ entryLimitPrice (PyFloat.Fin tick005) (PyFloat.Fin pct1501) SELL
          (PyFloat.Fin close100) = PyFloat.Fin rs
     /\ protectedDown (PyFloat.Fin pct1502) (PyFloat.Fin close100)
        = PyFloat.Fin m2
     /\ (0 <= m2)%Z)
  /\ PyFloat.ltb
       (entryLimitPrice (PyFloat.of_ratio 5 100) (PyFloat.of_Z 150) BUY
          (PyFloat.of_Z 100))
       (entryLimitPrice (PyFloat.of_ratio 5 100) (PyFloat.of_Z 200) BUY
          (PyFloat.of_Z 100)) = true.
Proof.
  split.
  - eexists _, _, _. split; [vm_compute; reflexivity|].
    split; [vm_compute; reflexivity|]. split; [vm_compute; reflexivity|].
    vm_compute. discriminate.
  - vm_compute. reflexivity.
Qed.

Example pricer_literals :
  PyFloat.of_ratio 5 100 = PyFloat.Fin tick005
  /\ PyFloat.of_Z 100 = PyFloat.Fin close100
  /\ PyFloat.of_ratio 1501 100 = PyFloat.Fin pct1501
  /\ PyFloat.of_ratio 1502 100 = PyFloat.Fin pct1502.
Proof. split; [|split; [|split]]; vm_compute; reflexivity. Qed.

(** * Further properties of the methods *)

Lemma closeAllPositions_pendingExit cfg w s p :
  In p (activePositions w) ->
  Some p ∈ pendingExit (exec (closeAllPositions cfg w) s).
Proof.
  intros Hin. unfold exec.
  destruct (closeAllPositions_spec cfg w s) as [log ->]. cbn [snd pendingExit].
  apply elem_of_union. left.
  apply elem_of_list_to_set, list_elem_of_fmap. exists p.
  split; [done|]. by apply list_elem_of_In.
Qed.

Lemma closeAllPositions_keeps cfg w s :
  state (exec (closeAllPositions cfg w) s) = SQUARING_OFF
  /\ pendingSLToCost (exec (closeAllPositions cfg w) s) = pendingSLToCost s.
Proof.
  unfold exec. by destruct (closeAllPositions_spec cfg w s) as [log ->].
Qed.

(** X1. [closeAllPositions]: returns; the phase is [SQUARING_OFF]; every active
    position is in [pendingExit]; those with a live exit order, and only
    those, join [pendingCancelExit]; [pendingEntry], [pendingSLToCost] and
    the groups are untouched. *)
Theorem closeAllPositions_effect cfg w s :
  fst (closeAllPositions cfg w s) = Returned tt
  /\ state (exec (closeAllPositions cfg w) s) = SQUARING_OFF
  /\ (forall p, Some p ∈ pendingExit (exec (closeAllPositions cfg w) s) <->
        In p (activePositions w) \/ Some p ∈ pendingExit s)
  /\ (forall p, Some p ∈ pendingCancelExit (exec (closeAllPositions cfg w) s)
        <-> In p (activePositions w) /\ exitActive w p = true
            \/ Some p ∈ pendingCancelExit s)
  /\ pendingEntry (exec (closeAllPositions cfg w) s) = pendingEntry s
  /\ pendingSLToCost (exec (closeAllPositions cfg w) s) = pendingSLToCost s
  /\ positions (exec (closeAllPositions cfg w) s) = positions s.
Proof.
  unfold exec. destruct (closeAllPositions_spec cfg w s) as [log ->].
  cbn [fst snd state pendingExit pendingCancelExit pendingEntry
       pendingSLToCost positions].
  repeat split; try done.
  - intros H. apply elem_of_union in H as [H|H]; [left|by right].
    apply elem_of_list_to_set, list_elem_of_fmap in H as (q & [= ->] & Hq).
    by apply list_elem_of_In.
  - intros [H|H]; apply elem_of_union; [left|by right].
    apply elem_of_list_to_set, list_elem_of_fmap. exists p.
    split; [done|]. by apply list_elem_of_In.
  - intros H. apply elem_of_union in H as [H|H]; [left|by right].
    apply elem_of_list_to_set, list_elem_of_fmap in H as (q & [= ->] & Hq).
    apply list_elem_of_In, filter_In in Hq. done.
  - intros [[H1 H2]|H]; apply elem_of_union; [left|by right].
    apply elem_of_list_to_set, list_elem_of_fmap. exists p.
    split; [done|]. apply list_elem_of_In, filter_In. done.
Qed.

Lemma closeLoop_orders cfg w l : forall s,
  orders (exec (for_each l (closePosition cfg w)) s)
    = orders s ++ closeOrders cfg w l.
Proof.
  induction l as [|p l IH]; intros s.
  - cbn. by rewrite app_nil_r.
  - cbn [for_each closeOrders flat_map]. unfold exec in *.
    unfold mbind at 1, M_bind at 1. unfold closePosition at 1.
    destruct (exitActive w p) eqn:Ha.
    + unfold_M; simpl. rewrite IH. simpl. by rewrite <- app_assoc.
    + unfold mbind at 1, M_bind at 1, modify at 1.
      unfold exitWithMarketProtection.
      destruct (lastBarClose w (instrument w p)) as [c|].
      * unfold_M; simpl. rewrite IH. simpl. by rewrite <- app_assoc.
      * unfold_M; simpl. rewrite IH. done.
Qed.

(** X2. [closeAllPositions] submits, in the order of the active positions,
    one cancel per position whose exit order is live, one protected exit per
    other position whose instrument has a last bar, and nothing for a
    position without one (which is in [pendingExit] all the same). *)
Theorem closeAllPositions_orders cfg w s :
  orders (exec (closeAllPositions cfg w) s)
    = orders s ++ closeOrders cfg w (activePositions w)
  /\ (forall p, In p (activePositions w) -> exitActive w p = false ->
      lastBarClose w (instrument w p) = None ->
      Some p ∈ pendingExit (exec (closeAllPositions cfg w) s)
      /\ forall c, In c (closeOrders cfg w (activePositions w)) ->
           c <> CancelExit p /\ forall price, c <> ExitLimit p price).
Proof.
  split.
  - unfold closeAllPositions, exec.
    unfold mbind at 1, M_bind at 1, modify at 1.
    pose proof (closeLoop_orders cfg w (activePositions w)
                  (set_state SQUARING_OFF s)) as H.
    unfold exec in H. by rewrite H.
  - intros p Hin Ha Hb. split.
    + by apply closeAllPositions_pendingExit.
    + intros c Hc. unfold closeOrders in Hc.
      apply in_flat_map in Hc as (q & Hq & Hc).
      destruct (exitActive w q) eqn:Haq.
      * destruct Hc as [<-|[]]. split; [|done].
        intros [= ->]. congruence.
      * destruct (lastBarClose w (instrument w q)) as [cl|] eqn:Hbq;
          [|done].
        destruct Hc as [<-|[]]. split; [done|].
        intros price [= -> _]. congruence.
Qed.

Lemma onExitCanceled_to_cost cfg w q s :
  Some q ∈ pendingSLToCost s ->
  onExitCanceled cfg w q s =
    (Returned tt,
     mkStrategy
       (if bool_decide (state s <> SQUARING_OFF) then PLACING_ORDERS
        else state s)
       (pendingEntry s) (pendingSLToCost s ∖ {[Some q]})
       (pendingCancelExit s ∖ {[Some q]}) (pendingExit s) (positions s)
       (nextLeg s)
       (orders s ++
          [ExitStopLimit q (floor005 (entryPrice w q))
             (floor005 (PyFloat.mul (floor005 (entryPrice w q))
                          (bufferFactor cfg)))])
       (enterCalls s)).
Proof.
  intros Hin. unfold onExitCanceled. bind_step. unfold modify at 1.
  bind_step. unfold get at 1. proj.
  rewrite (bool_decide_eq_true_2 _ Hin). reflexivity.
Qed.

(** X3. The move of the surviving short leg's stop to cost: when the
    lookup of leg [p]'s group succeeds (it raises with a [None] among the
    groups), [p] is stopped out outside [SQUARING_OFF] while the other
    short leg [q] of the group has its stop live and not filled, and the
    cancel of that stop is then confirmed, [q] has left [pendingSLToCost]
    again, and exactly two orders went out: the cancel and a new stop at
    [q]'s entry price floored to 0.05, with the buffered limit. *)
Theorem stop_moves_to_cost cfg w w' p s sp q :
  fst (getStraddlePosition p s) = Returned (Some sp) ->
  otherShort p sp = Some q ->
  state s <> SQUARING_OFF ->
  exitFilled w q = false -> exitActive w q = true ->
  exec (onExitCanceled cfg w' q) (exec (onExitOk w p) s)
    = mkStrategy PLACING_ORDERS (pendingEntry s)
        (pendingSLToCost s ∖ {[Some q]}) (pendingCancelExit s ∖ {[Some q]})
        (pendingExit s ∖ {[Some p]}) (positions s) (nextLeg s)
        (orders s ++
           [CancelExit q;
            ExitStopLimit q (floor005 (entryPrice w' q))
              (floor005 (PyFloat.mul (floor005 (entryPrice w' q))
                           (bufferFactor cfg)))])
        (enterCalls s).
Proof.
  intros Hg Ho Hs Hf Ha.
  rewrite getStraddlePosition_eq in Hg. cbn [fst] in Hg.
  unfold exec. rewrite onExitOk_exact. cbv zeta.
  rewrite (bool_decide_eq_false_2 _ Hs).
  destruct (straddlesOf p (positions s)) as [l|e]; [|discriminate].
  destruct (head l) as [sp'|]; [|discriminate].
  injection Hg as ->. rewrite Ho, Hf, Ha. cbn [snd].
  rewrite onExitCanceled_to_cost by (cbn [pendingSLToCost]; set_solver).
  cbn [snd state pendingEntry pendingSLToCost pendingCancelExit pendingExit
       positions nextLeg orders enterCalls].
  rewrite <- app_assoc. cbn [app].
  f_equal. set_solver.
Qed.

Lemma stop_moves_to_cost_witness :
  exec (onExitCanceled cfg0 stopsLiveAt1100 3%nat)
    (exec (onExitOk stopsLiveAt1100 2%nat) afterShortsConfirmed)
  = mkStrategy PLACING_ORDERS (pendingEntry afterShortsConfirmed)
      (pendingSLToCost afterShortsConfirmed ∖ {[Some 3%nat]})
      (pendingCancelExit afterShortsConfirmed ∖ {[Some 3%nat]})
      (pendingExit afterShortsConfirmed ∖ {[Some 2%nat]})
      (positions afterShortsConfirmed) (nextLeg afterShortsConfirmed)
      (orders afterShortsConfirmed ++
         [CancelExit 3%nat;
          ExitStopLimit 3%nat (floor005 (entryPrice stopsLiveAt1100 3%nat))
            (floor005
               (PyFloat.mul (floor005 (entryPrice stopsLiveAt1100 3%nat))
                  (bufferFactor cfg0)))])
      (enterCalls afterShortsConfirmed).
Proof.
  apply (stop_moves_to_cost cfg0 stopsLiveAt1100 stopsLiveAt1100 2%nat
           afterShortsConfirmed
           (mkStraddlePosition (Some 0%nat) (Some 1%nat) (Some 2%nat)
              (Some 3%nat) 20000%Z) 3%nat).
  - vm_compute. reflexivity.
  - vm_compute. reflexivity.
  - vm_compute. discriminate.
  - reflexivity.
  - reflexivity.
Defined.

Lemma enterWithMarketProtection_bar cfg w sym a c s :
  lastBarClose w sym = Some c ->
  enterWithMarketProtection cfg w sym a s =
    (Returned (Some (nextLeg s)),
     submitted s (S (nextLeg s))
       [match a with
        | BUY => EnterLongLimit sym
                   (entryLimitPrice (tickSize cfg)
                      (marketProtectionPercentage cfg) BUY c) (quantity cfg)
        | SELL => EnterShortLimit sym
                    (entryLimitPrice (tickSize cfg)
                       (marketProtectionPercentage cfg) SELL c) (quantity cfg)
        end]).
Proof.
  intros Hb. unfold enterWithMarketProtection. rewrite Hb.
  by destruct a.
Qed.

Lemma enterPositions_exact cfg w s atm c1 c2 c3 c4 :
  atmStrike w = Some atm ->
  let away := (hedgesNStrikesAway cfg * strikeDifference cfg)%Z in
  lastBarClose w (mkSymbol (atm + away) Call) = Some c1 ->
  lastBarClose w (mkSymbol (atm - away) Put) = Some c2 ->
  lastBarClose w (mkSymbol atm Call) = Some c3 ->
  lastBarClose w (mkSymbol atm Put) = Some c4 ->
  let n := nextLeg s in
  enterPositions cfg w s =
    (Returned (Some (mkStraddlePosition (Some n) (Some (S n)) (Some (S (S n)))
                       (Some (S (S (S n)))) atm)),
     mkStrategy PLACING_ORDERS
       ({[Some (S (S (S n)))]} ∪ ({[Some (S (S n))]} ∪ ({[Some (S n)]}
          ∪ ({[Some n]} ∪ pendingEntry s))))
       (pendingSLToCost s) (pendingCancelExit s) (pendingExit s)
       (positions s) (S (S (S (S n))))
       (orders s ++ entryOrders cfg atm c1 c2 c3 c4) (S (enterCalls s))).
Proof.
  intros Ha away H1 H2 H3 H4 n. unfold enterPositions. rewrite Ha.
  fold away.
  unfold mbind at 1, M_bind at 1, countEnter at 1, modify at 1.
  unfold mbind at 1, M_bind at 1, modify at 1.
  unfold mbind at 1, M_bind at 1.
  rewrite (enterWithMarketProtection_bar _ _ _ _ _ _ H1).
  unfold mbind at 1, M_bind at 1.
  rewrite (enterWithMarketProtection_bar _ _ _ _ _ _ H2).
  unfold mbind at 1, M_bind at 1.
  rewrite (enterWithMarketProtection_bar _ _ _ _ _ _ H3).
  unfold mbind at 1, M_bind at 1.
  rewrite (enterWithMarketProtection_bar _ _ _ _ _ _ H4).
  unfold_M. fields. unfold entryOrders. fold away.
  by rewrite <- !app_assoc.
Qed.

(** X4. With a last bar for each of the four symbols, [enterPositions]
    returns the new group of four fresh positions, sets the phase to
    [PLACING_ORDERS], submits exactly the four limit orders of
    [entryOrders] (long call hedge, long put hedge, short call, short put,
    the hedges [hedgesNStrikesAway] strikes out) and puts the four positions
    in [pendingEntry]. *)
Theorem enterPositions_all_bars cfg w s atm c1 c2 c3 c4 :
  atmStrike w = Some atm ->
  lastBarClose w
    (mkSymbol (atm + hedgesNStrikesAway cfg * strikeDifference cfg) Call)
    = Some c1 ->
  lastBarClose w
    (mkSymbol (atm - hedgesNStrikesAway cfg * strikeDifference cfg) Put)
    = Some c2 ->
  lastBarClose w (mkSymbol atm Call) = Some c3 ->
  lastBarClose w (mkSymbol atm Put) = Some c4 ->
  fst (enterPositions cfg w s)
    = Returned (Some (mkStraddlePosition (Some (nextLeg s))
                        (Some (S (nextLeg s))) (Some (S (S (nextLeg s))))
                        (Some (S (S (S (nextLeg s))))) atm))
  /\ state (exec (enterPositions cfg w) s) = PLACING_ORDERS
  /\ orders (exec (enterPositions cfg w) s)
     = orders s ++ entryOrders cfg atm c1 c2 c3 c4
  /\ pendingEntry (exec (enterPositions cfg w) s)
     = {[Some (S (S (S (nextLeg s))))]} ∪ ({[Some (S (S (nextLeg s)))]}
         ∪ ({[Some (S (nextLeg s))]} ∪ ({[Some (nextLeg s)]}
         ∪ pendingEntry s)))
  /\ nextLeg (exec (enterPositions cfg w) s) = S (S (S (S (nextLeg s)))).
Proof.
  intros Ha H1 H2 H3 H4. unfold exec.
  rewrite (enterPositions_exact cfg w s atm c1 c2 c3 c4 Ha H1 H2 H3 H4).
  cbn [fst snd state orders pendingEntry nextLeg]. repeat split.
Qed.

Lemma enterPositions_all_bars_witness :
  fst (enterPositions cfg0 quiet initial)
    = Returned (Some (mkStraddlePosition (Some (nextLeg initial))
                        (Some (S (nextLeg initial)))
                        (Some (S (S (nextLeg initial))))
                        (Some (S (S (S (nextLeg initial))))) 20000%Z))
  /\ state (exec (enterPositions cfg0 quiet) initial) = PLACING_ORDERS
  /\ orders (exec (enterPositions cfg0 quiet) initial)
     = orders initial
       ++ entryOrders cfg0 20000%Z price100 price100 price100 price100
  /\ pendingEntry (exec (enterPositions cfg0 quiet) initial)
     = {[Some (S (S (S (nextLeg initial))))]}
         ∪ ({[Some (S (S (nextLeg initial)))]}
         ∪ ({[Some (S (nextLeg initial))]} ∪ ({[Some (nextLeg initial)]}
         ∪ pendingEntry initial)))
  /\ nextLeg (exec (enterPositions cfg0 quiet) initial)
     = S (S (S (S (nextLeg initial)))).
Proof.
  apply (enterPositions_all_bars cfg0 quiet initial 20000%Z
           price100 price100 price100 price100); reflexivity.
Defined.

Lemma entryCallback_pendingEntry cfg w b p s :
  pendingEntry (run cfg (entryCallback b p) w s)
    = pendingEntry s ∖ {[Some p]}
  /\ nextLeg (run cfg (entryCallback b p) w s) = nextLeg s.
Proof.
  unfold run, exec. destruct b; cbn [entryCallback handler].
  - by destruct (onEnterOk_spec cfg w p s) as (r & log & ->).
  - by rewrite onEnterCanceled_spec.
Qed.

(** X5. Entry round trip: after [enterPositions] has placed its four orders,
    the confirmation or cancellation of each of the four entries (in any
    worlds) brings [pendingEntry] back to what it was before. *)
Theorem entries_drain cfg w s atm c1 c2 c3 c4 b0 b1 b2 b3 w0 w1 w2 w3 :
  atmStrike w = Some atm ->
  lastBarClose w
    (mkSymbol (atm + hedgesNStrikesAway cfg * strikeDifference cfg) Call)
    = Some c1 ->
  lastBarClose w
    (mkSymbol (atm - hedgesNStrikesAway cfg * strikeDifference cfg) Put)
    = Some c2 ->
  lastBarClose w (mkSymbol atm Call) = Some c3 ->
  lastBarClose w (mkSymbol atm Put) = Some c4 ->
  (forall p, Some p ∈ pendingEntry s -> (p < nextLeg s)%nat) ->
  pendingEntry
    (runs cfg [ (entryCallback b0 (nextLeg s), w0);
                (entryCallback b1 (S (nextLeg s)), w1);
                (entryCallback b2 (S (S (nextLeg s))), w2);
                (entryCallback b3 (S (S (S (nextLeg s)))), w3) ]
       (exec (enterPositions cfg w) s))
    = pendingEntry s.
Proof.
  intros Ha H1 H2 H3 H4 Hold.
  unfold exec.
  rewrite (enterPositions_exact cfg w s atm c1 c2 c3 c4 Ha H1 H2 H3 H4).
  cbn [snd runs].
  rewrite !(proj1 (entryCallback_pendingEntry _ _ _ _ _)).
  cbn [pendingEntry].
  assert (Hn : forall k, Some (k + nextLeg s)%nat ∉ pendingEntry s).
  { intros k Hk. apply Hold in Hk. lia. }
  pose proof (Hn 0%nat) as N0. pose proof (Hn 1%nat) as N1.
  pose proof (Hn 2%nat) as N2. pose proof (Hn 3%nat) as N3.
  cbn [Nat.add] in N0, N1, N2, N3.
  generalize dependent (pendingEntry s). intros X _ _ N0 N1 N2 N3.
  generalize dependent (nextLeg s). intros n N0 N1 N2 N3.
  set_solver.
Qed.

Lemma entries_drain_witness :
  pendingEntry
    (runs cfg0 [ (entryCallback true (nextLeg initial), quiet);
                 (entryCallback false (S (nextLeg initial)), quiet);
                 (entryCallback true (S (S (nextLeg initial))), quiet);
                 (entryCallback true (S (S (S (nextLeg initial)))), quiet) ]
       (exec (enterPositions cfg0 quiet) initial))
    = pendingEntry initial.
Proof.
  apply (entries_drain cfg0 quiet initial 20000%Z price100 price100 price100
           price100 true false true true quiet quiet quiet quiet);
    try reflexivity.
  intros p Hp. cbn in Hp. set_solver.
Defined.

(** X6. [handlePlacingOrders] returns and changes nothing but the phase; it
    changes nothing at all while a pending set is non-empty or while the
    broker still has orders pending. *)
Theorem handlePlacingOrders_only_phase cfg w s :
  fst (handlePlacingOrders cfg w s) = Returned tt
  /\ set_state (state s) (exec (handlePlacingOrders cfg w) s) = s
  /\ (~ all_drained s -> exec (handlePlacingOrders cfg w) s = s)
  /\ (pendingOrdersCompleted w = false ->
      exec (handlePlacingOrders cfg w) s = s).
Proof.
  unfold exec.
  destruct (handlePlacingOrders_spec cfg w s) as (st & -> & Hst).
  cbn [fst snd]. split; [done|]. split; [by destruct s|].
  split; intros H.
  - destruct Hst as [->|(Hd & _)]; [apply set_state_same|done].
  - destruct Hst as [->|(_ & Hc & _)]; [apply set_state_same|congruence].
Qed.

(** X7. A tick within the session: before the exit time it changes at most
    the phase; in the phases [LIVE] and [EXITED] it changes nothing at all;
    at or after the exit time, in the phase [ENTERED], it is
    [closeAllPositions]. *)
Theorem strategyLogic_in_session cfg w s :
  time_ltb (now w) (marketEndTime cfg) = true ->
  (time_ltb (now w) (exitTime cfg) = true ->
     set_state (state s) (run cfg EvStrategyLogic w s) = s)
  /\ (state s = LIVE \/ state s = EXITED -> run cfg EvStrategyLogic w s = s)
  /\ (time_ltb (now w) (exitTime cfg) = false -> state s = ENTERED ->
      run cfg EvStrategyLogic w s = exec (closeAllPositions cfg w) s).
Proof.
  intros Hend. unfold run. cbn [handler].
  destruct (strategyLogic_cases cfg w s) as (st & Hst & Hc).
  assert (Hge : time_geb (now w) (marketEndTime cfg) = false)
    by (unfold time_geb; by rewrite Hend).
  split; [|split].
  - intros Hex.
    destruct Hc as [->|[[Ht _]|(_ & Ht & _)]]; [by destruct s|congruence|].
    unfold time_geb in Ht. rewrite Hex in Ht. discriminate.
  - intros Hs.
    assert (st = state s) as ->.
    { destruct Hst as [->|([Hp|Hp] & _)]; [done|..];
        destruct Hs as [Hs|Hs]; congruence. }
    rewrite set_state_same in Hc.
    destruct Hc as [->|[[Ht _]|(_ & _ & He & _)]]; [done|congruence|].
    destruct Hs as [Hs|Hs]; congruence.
  - intros Hex He.
    assert (Hx : time_geb (now w) (exitTime cfg) = true)
      by (unfold time_geb; by rewrite Hex).
    clear Hc Hst. unfold exec, strategyLogic, try_except.
    unfold mbind at 1, M_bind at 1, get at 1.
    rewrite (bool_decide_eq_false_2 (state s = PLACING_ORDERS))
      by congruence.
    rewrite (bool_decide_eq_false_2 (state s = SQUARING_OFF)) by congruence.
    cbn [orb]. unfold mbind at 1, M_bind at 1. unfold mret at 1, M_ret at 1.
    rewrite Hge, Hx. unfold mbind at 1, M_bind at 1, get at 1.
    rewrite (bool_decide_eq_true_2 _ He).
    by destruct (closeAllPositions_spec cfg w s) as [log ->].
Qed.

Lemma strategyLogic_in_session_witness :
  (time_ltb (now stopsLiveAt1524) (exitTime cfg0) = true ->
     set_state (state afterEntered)
       (run cfg0 EvStrategyLogic stopsLiveAt1524 afterEntered)
     = afterEntered)
  /\ (state afterEntered = LIVE \/ state afterEntered = EXITED ->
      run cfg0 EvStrategyLogic stopsLiveAt1524 afterEntered = afterEntered)
  /\ (time_ltb (now stopsLiveAt1524) (exitTime cfg0) = false ->
      state afterEntered = ENTERED ->
      run cfg0 EvStrategyLogic stopsLiveAt1524 afterEntered
      = exec (closeAllPositions cfg0 stopsLiveAt1524) afterEntered).
Proof.
  apply (strategyLogic_in_session cfg0 stopsLiveAt1524 afterEntered).
  reflexivity.
Defined.

Example afterEntered_is_entered : state afterEntered = ENTERED.
Proof. vm_compute. reflexivity. Qed.

(** X8. The tick at or after the market's end: when the broker has an active
    or a closed position the strategy is reset (no pending leg, no group
    left); when it has none, nothing is reset and the groups, a [None]
    among them included, stay for the next session. *)
Theorem strategyLogic_market_end cfg w s :
  time_ltb (now w) (marketEndTime cfg) = false ->
  (activePositions w <> [] \/ closedPositions w <> [] ->
     all_drained (run cfg EvStrategyLogic w s)
     /\ positions (run cfg EvStrategyLogic w s) = [])
  /\ (activePositions w = [] -> closedPositions w = [] ->
      set_state (state s) (run cfg EvStrategyLogic w s) = s).
Proof.
  intros Hend.
  assert (Hge : time_geb (now w) (marketEndTime cfg) = true)
    by (unfold time_geb; by rewrite Hend).
  assert (E : exists st, run cfg EvStrategyLogic w s =
            if (0 <? length (activePositions w) + length (closedPositions w))%nat
            then reset (set_state st s) else set_state st s).
  { destruct (strategyLogic_cases cfg w s) as (st & _ & _).
    unfold run, exec. cbn [handler]. unfold strategyLogic, try_except.
    unfold mbind at 1, M_bind at 1, get at 1.
    unfold mbind at 1, M_bind at 1.
    destruct (bool_decide (state s = PLACING_ORDERS)
              || bool_decide (state s = SQUARING_OFF)).
    - destruct (handlePlacingOrders_spec cfg w s) as (st' & -> & _).
      exists st'. rewrite Hge. by destruct (0 <? _)%nat.
    - exists (state s). rewrite set_state_same.
      unfold mret at 1, M_ret at 1. rewrite Hge. by destruct (0 <? _)%nat. }
  destruct E as [st ->]. split.
  - intros Hp.
    assert ((0 <? length (activePositions w) + length (closedPositions w))%nat
            = true) as ->.
    { apply Nat.ltb_lt.
      destruct (activePositions w), (closedPositions w); cbn; try lia.
      by destruct Hp. }
    by cbn.
  - intros -> ->. cbn. by destruct s.
Qed.

Lemma strategyLogic_market_end_witness :
  (activePositions idleMarketEnd <> [] \/ closedPositions idleMarketEnd <> [] ->
     all_drained (run cfg0 EvStrategyLogic idleMarketEnd afterNoStrike)
     /\ positions (run cfg0 EvStrategyLogic idleMarketEnd afterNoStrike) = [])
  /\ (activePositions idleMarketEnd = [] ->
      closedPositions idleMarketEnd = [] ->
      set_state (state afterNoStrike)
        (run cfg0 EvStrategyLogic idleMarketEnd afterNoStrike)
      = afterNoStrike).
Proof.
  apply (strategyLogic_market_end cfg0 idleMarketEnd afterNoStrike).
  reflexivity.
Defined.

(** X9. The entry trigger does not look at the phase: in every phase,
    [EXITED] and [SQUARING_OFF] included, a trigger that finds the ATM
    strike and fewer than [maxEntries] groups enters a new group and sets
    the phase to [PLACING_ORDERS]. *)
Theorem onResampledBars_in_any_phase cfg w s atm :
  atmStrike w = Some atm ->
  length (positions s) <> maxEntries cfg ->
  state (run cfg EvResampledBars w s) = PLACING_ORDERS
  /\ length (positions (run cfg EvResampledBars w s))
     = S (length (positions s))
  /\ enterCalls (run cfg EvResampledBars w s) = S (enterCalls s).
Proof.
  intros Ha Hl. unfold run, exec. cbn [handler].
  destruct (onResampledBars_some cfg w s atm Ha Hl)
    as (sp & n & log & -> & _).
  cbn [snd state positions enterCalls]. rewrite length_app. cbn.
  repeat split; lia.
Qed.

Lemma onResampledBars_in_any_phase_witness :
  state (run cfg0 EvResampledBars stopsLiveAt1525 afterSquareOff)
    = PLACING_ORDERS
  /\ length (positions (run cfg0 EvResampledBars stopsLiveAt1525
                          afterSquareOff))
     = S (length (positions afterSquareOff))
  /\ enterCalls (run cfg0 EvResampledBars stopsLiveAt1525 afterSquareOff)
     = S (enterCalls afterSquareOff).
Proof.
  apply (onResampledBars_in_any_phase cfg0 stopsLiveAt1525 afterSquareOff
           20000%Z).
  - reflexivity.
  - vm_compute. lia.
Defined.

Lemma straddlesOf_none_short p l :
  (forall x, x ∈ l -> exists sp, x = Some sp /\ isShortLegOf p sp = false) ->
  straddlesOf p l = Returned [].
Proof.
  induction l as [|x l IH]; intros H; [done|].
  destruct (H x ltac:(by left)) as (sp & -> & Hs).
  cbn [straddlesOf]. rewrite IH, Hs; [done|].
  intros y Hy. apply H. by right.
Qed.

(** X10. The entry-confirmed handler and the stop. When every group is a
    real group and the leg is the short leg of none of them (a hedge), the
    handler only takes the leg out of [pendingEntry] and submits nothing.
    When the lookup returns a group whose short leg it is, it submits
    exactly one order, the stop of [stopOrder]. When a [None] is among the
    groups the lookup raises: the leg has left [pendingEntry] and nothing is
    submitted, for a short leg too. *)
Theorem onEnterOk_orders cfg w p s :
  ((forall x, x ∈ positions s ->
      exists sp, x = Some sp /\ isShortLegOf p sp = false) ->
   onEnterOk cfg w p s
   = (Returned tt, set_pendingEntry (pendingEntry s ∖ {[Some p]}) s))
  /\ (forall sp, fst (getStraddlePosition p s) = Returned (Some sp) ->
      onEnterOk cfg w p s
      = (Returned tt,
         mkStrategy (state s) (pendingEntry s ∖ {[Some p]})
           (pendingSLToCost s) (pendingCancelExit s) (pendingExit s)
           (positions s) (nextLeg s) (orders s ++ [stopOrder cfg w p])
           (enterCalls s)))
  /\ (None ∈ positions s ->
      onEnterOk cfg w p s
      = (Raised AttributeError,
         set_pendingEntry (pendingEntry s ∖ {[Some p]}) s)).
Proof.
  split; [|split].
  - intros H. unfold onEnterOk. bind_step. unfold modify at 1.
    bind_step. rewrite getStraddlePosition_eq. proj.
    by rewrite (straddlesOf_none_short _ _ H).
  - intros sp Hg. rewrite getStraddlePosition_eq in Hg. cbn [fst] in Hg.
    unfold onEnterOk. bind_step. unfold modify at 1.
    bind_step. rewrite getStraddlePosition_eq. proj.
    destruct (straddlesOf p (positions s)) as [l|e]; [|discriminate].
    destruct (head l); [|discriminate]. reflexivity.
  - intros H. unfold onEnterOk. bind_step. unfold modify at 1.
    bind_step. rewrite getStraddlePosition_eq. proj.
    by rewrite (straddlesOf_None _ _ H).
Qed.

(** X11. A cancel confirmation for a leg that is neither awaiting its move to
    cost nor awaiting its exit only takes the leg out of
    [pendingCancelExit]: no order, no change of phase. *)
Theorem onExitCanceled_stray cfg w p s :
  Some p ∉ pendingSLToCost s -> Some p ∉ pendingExit s ->
  onExitCanceled cfg w p s
  = (Returned tt,
     set_pendingCancelExit (pendingCancelExit s ∖ {[Some p]}) s).
Proof.
  intros Hsl Hex. unfold onExitCanceled. bind_step. unfold modify at 1.
  bind_step. unfold get at 1. proj.
  rewrite (bool_decide_eq_false_2 _ Hsl), (bool_decide_eq_false_2 _ Hex).
  reflexivity.
Qed.

Lemma onExitCanceled_stray_witness :
  onExitCanceled cfg0 quiet 7%nat afterShortsConfirmed
  = (Returned tt,
     set_pendingCancelExit
       (pendingCancelExit afterShortsConfirmed ∖ {[Some 7%nat]})
       afterShortsConfirmed).
Proof.
  apply (onExitCanceled_stray cfg0 quiet 7%nat afterShortsConfirmed).
  - apply (proj1 (bool_decide_eq_false _)). vm_compute. reflexivity.
  - apply (proj1 (bool_decide_eq_false _)). vm_compute. reflexivity.
Defined.

(** X12. The four callbacks never add a leg to [pendingEntry],
    [pendingCancelExit] or [pendingExit] and never touch the groups; only
    [pendingSLToCost] can gain a leg, in the exit-confirmed handler. *)
Theorem callbacks_add_no_pending cfg w p s :
  adds_no_pending cfg w s (EvEnterOk p)
  /\ adds_no_pending cfg w s (EvEnterCanceled p)
  /\ adds_no_pending cfg w s (EvExitOk p)
  /\ adds_no_pending cfg w s (EvExitCanceled p)
  /\ pendingSLToCost (run cfg (EvEnterOk p) w s) = pendingSLToCost s
  /\ pendingSLToCost (run cfg (EvEnterCanceled p) w s) = pendingSLToCost s
  /\ pendingSLToCost (run cfg (EvExitCanceled p) w s) ⊆ pendingSLToCost s.
Proof.
  unfold adds_no_pending, run, exec; cbn [handler].
  destruct (onEnterOk_spec cfg w p s) as (r1 & log1 & ->).
  rewrite onEnterCanceled_spec.
  destruct (onExitOk_spec w p s) as (r3 & st3 & sl3 & log3 & -> & _).
  destruct (onExitCanceled_spec cfg w p s) as (st4 & log4 & -> & _).
  cbn [snd pendingEntry pendingCancelExit pendingExit pendingSLToCost
       positions].
  repeat split; set_solver.
Qed.

Lemma onExitCanceled_retry cfg w p s :
  Some p ∉ pendingSLToCost s -> Some p ∈ pendingExit s ->
  onExitCanceled cfg w p s =
    (Returned tt,
     mkStrategy
       (if bool_decide (state s <> SQUARING_OFF) then PLACING_ORDERS
        else state s)
       (pendingEntry s) (pendingSLToCost s)
       (pendingCancelExit s ∖ {[Some p]}) (pendingExit s) (positions s)
       (nextLeg s)
       (orders s ++
          match lastBarClose w (instrument w p) with
          | None => []
          | Some close =>
              [ExitLimit p
                 (exitLimitPrice (tickSize cfg)
                    (marketProtectionPercentage cfg) (entryIsBuy w p) close)]
          end)
       (enterCalls s)).
Proof.
  intros Hsl Hex. unfold onExitCanceled. bind_step. unfold modify at 1.
  bind_step. unfold get at 1. proj.
  rewrite (bool_decide_eq_false_2 _ Hsl), (bool_decide_eq_true_2 _ Hex).
  bind_step. unfold modify at 1. unfold placingUnlessSquaringOff.
  unfold exitWithMarketProtection.
  destruct (lastBarClose w (instrument w p)); unfold_M; proj; [done|].
  by rewrite app_nil_r.
Qed.

(** X16. Squaring off a position whose stop is live takes two steps: the
    cancel at [closeAllPositions], and, when the cancel is confirmed, the
    protected exit; the leg then has left [pendingCancelExit], is still in
    [pendingExit], and the phase is still [SQUARING_OFF]. *)
Theorem exit_follows_cancel cfg w w' p s c :
  In p (activePositions w) -> exitActive w p = true ->
  Some p ∉ pendingSLToCost s ->
  lastBarClose w' (instrument w' p) = Some c ->
  let s1 := exec (closeAllPositions cfg w) s in
  let s2 := exec (onExitCanceled cfg w' p) s1 in
  In (CancelExit p) (closeOrders cfg w (activePositions w))
  /\ orders s2
     = orders s1
       ++ [ExitLimit p
             (exitLimitPrice (tickSize cfg) (marketProtectionPercentage cfg)
                (entryIsBuy w' p) c)]
  /\ state s2 = SQUARING_OFF
  /\ (Some p ∉ pendingCancelExit s2) /\ Some p ∈ pendingExit s2.
Proof.
  intros Hin Ha Hsl Hb s1 s2.
  destruct (closeAllPositions_keeps cfg w s) as [Hst Hsl1].
  fold s1 in Hst, Hsl1.
  assert (H1 : Some p ∉ pendingSLToCost s1) by (by rewrite Hsl1).
  assert (H2 : Some p ∈ pendingExit s1)
    by (by apply closeAllPositions_pendingExit).
  split.
  { unfold closeOrders. apply in_flat_map. exists p. split; [done|].
    rewrite Ha. by left. }
  subst s2. unfold exec at 1 2 3 4.
  rewrite (onExitCanceled_retry cfg w' p s1 H1 H2). rewrite Hb, Hst.
  cbn [snd orders state pendingCancelExit pendingExit].
  rewrite bool_decide_eq_false_2 by (intros H; by apply H).
  repeat split; [set_solver|done].
Qed.

(** X17. A leg that awaits its move to cost when the strategy squares off is
    not closed: on the confirmation of its cancel the handler places a new
    stop at cost, no exit order, and the leg stays in [pendingExit]. *)
Theorem to_cost_leg_is_not_closed cfg w p s :
  Some p ∈ pendingSLToCost s -> Some p ∈ pendingExit s ->
  state s = SQUARING_OFF ->
  let s' := exec (onExitCanceled cfg w p) s in
  orders s'
  = orders s ++
      [ExitStopLimit p (floor005 (entryPrice w p))
         (floor005 (PyFloat.mul (floor005 (entryPrice w p))
                      (bufferFactor cfg)))]
  /\ Some p ∈ pendingExit s' /\ state s' = SQUARING_OFF
  /\ (Some p ∉ pendingSLToCost s').
Proof.
  intros Hsl Hex Hst s'. subst s'. unfold exec.
  rewrite (onExitCanceled_to_cost cfg w p s Hsl).
  cbn [snd orders pendingExit state pendingSLToCost]. rewrite Hst.
  rewrite bool_decide_eq_false_2 by (intros H; by apply H).
  repeat split; [done|set_solver].
Qed.

(** X18. The tick that finds everything settled (within the session, in a
    polling phase, all four sets empty, no broker order pending) recomputes
    the phase by the transition rule; and when that gives [ENTERED] at or
    after the exit time, the same tick goes on to [closeAllPositions]. *)
Theorem strategyLogic_recomputes cfg w s :
  time_ltb (now w) (marketEndTime cfg) = true ->
  pending_phase (state s) -> all_drained s ->
  pendingOrdersCompleted w = true ->
  run cfg EvStrategyLogic w s =
    if time_geb (now w) (exitTime cfg)
       && bool_decide (transition_rule cfg w (state s) = ENTERED)
    then exec (closeAllPositions cfg w)
           (set_state (transition_rule cfg w (state s)) s)
    else set_state (transition_rule cfg w (state s)) s.
Proof.
  intros Hend Hp Hd Hc.
  assert (Hge : time_geb (now w) (marketEndTime cfg) = false)
    by (unfold time_geb; by rewrite Hend).
  assert (Hb : bool_decide (state s = PLACING_ORDERS)
               || bool_decide (state s = SQUARING_OFF) = true).
  { apply orb_true_iff.
    destruct Hp as [Hp|Hp]; [left|right]; by apply bool_decide_eq_true_2. }
  unfold run. cbn [handler]. unfold exec at 1.
  unfold strategyLogic, try_except.
  unfold mbind at 1, M_bind at 1, get at 1. rewrite Hb.
  unfold mbind at 1, M_bind at 1.
  rewrite (handlePlacingOrders_drained cfg w s Hd Hc), Hge.
  set (st := transition_rule cfg w (state s)).
  destruct (time_geb (now w) (exitTime cfg)); cbn [andb]; [|done].
  unfold mbind at 1, M_bind at 1, get at 1. cbn [state set_state].
  destruct (bool_decide (st = ENTERED)); [|done].
  unfold exec. by destruct (closeAllPositions_spec cfg w (set_state st s))
    as [log ->].
Qed.

Lemma strategyLogic_recomputes_witness :
  run cfg0 EvStrategyLogic stopsLiveAt1524 afterConfirmed =
    if time_geb (now stopsLiveAt1524) (exitTime cfg0)
       && bool_decide
            (transition_rule cfg0 stopsLiveAt1524 (state afterConfirmed)
             = ENTERED)
    then exec (closeAllPositions cfg0 stopsLiveAt1524)
           (set_state
              (transition_rule cfg0 stopsLiveAt1524 (state afterConfirmed))
              afterConfirmed)
    else set_state
           (transition_rule cfg0 stopsLiveAt1524 (state afterConfirmed))
           afterConfirmed.
Proof.
  apply (strategyLogic_recomputes cfg0 stopsLiveAt1524 afterConfirmed).
  - reflexivity.
  - left. vm_compute. reflexivity.
  - apply drained_iff. vm_compute. reflexivity.
  - reflexivity.
Defined.

Example recompute_and_square_off_in_one_tick :
  state afterConfirmed = PLACING_ORDERS
  /\ state (run cfg0 EvStrategyLogic stopsLiveAt1524 afterConfirmed)
     = SQUARING_OFF.
Proof. split; vm_compute; reflexivity. Qed.

Lemma exit_follows_cancel_witness :
  In (CancelExit 2%nat)
    (closeOrders cfg0 stopsLiveAt1524 (activePositions stopsLiveAt1524))
  /\ orders (exec (onExitCanceled cfg0 stopsLiveAt1524 2%nat)
              (exec (closeAllPositions cfg0 stopsLiveAt1524) afterEntered))
     = orders (exec (closeAllPositions cfg0 stopsLiveAt1524) afterEntered)
       ++ [ExitLimit 2%nat
             (exitLimitPrice (tickSize cfg0) (marketProtectionPercentage cfg0)
                (entryIsBuy stopsLiveAt1524 2%nat) price100)]
  /\ state (exec (onExitCanceled cfg0 stopsLiveAt1524 2%nat)
             (exec (closeAllPositions cfg0 stopsLiveAt1524) afterEntered))
     = SQUARING_OFF
  /\ (Some 2%nat ∉ pendingCancelExit
        (exec (onExitCanceled cfg0 stopsLiveAt1524 2%nat)
           (exec (closeAllPositions cfg0 stopsLiveAt1524) afterEntered)))
  /\ Some 2%nat ∈ pendingExit
       (exec (onExitCanceled cfg0 stopsLiveAt1524 2%nat)
          (exec (closeAllPositions cfg0 stopsLiveAt1524) afterEntered)).
Proof.
  apply (exit_follows_cancel cfg0 stopsLiveAt1524 stopsLiveAt1524 2%nat
           afterEntered price100).
  - vm_compute. tauto.
  - reflexivity.
  - apply (proj1 (bool_decide_eq_false _)). vm_compute. reflexivity.
  - reflexivity.
Defined.

Lemma to_cost_leg_is_not_closed_witness :
  orders (exec (onExitCanceled cfg0 stopsLiveAt1100 3%nat) afterStopThenClose)
  = orders afterStopThenClose ++
      [ExitStopLimit 3%nat (floor005 (entryPrice stopsLiveAt1100 3%nat))
         (floor005 (PyFloat.mul (floor005 (entryPrice stopsLiveAt1100 3%nat))
                      (bufferFactor cfg0)))]
  /\ Some 3%nat ∈ pendingExit
       (exec (onExitCanceled cfg0 stopsLiveAt1100 3%nat) afterStopThenClose)
  /\ state (exec (onExitCanceled cfg0 stopsLiveAt1100 3%nat)
             afterStopThenClose) = SQUARING_OFF
  /\ (Some 3%nat ∉ pendingSLToCost
        (exec (onExitCanceled cfg0 stopsLiveAt1100 3%nat)
           afterStopThenClose)).
Proof.
  apply (to_cost_leg_is_not_closed cfg0 stopsLiveAt1100 3%nat
           afterStopThenClose).
  - apply (proj1 (bool_decide_eq_true _)). vm_compute. reflexivity.
  - apply (proj1 (bool_decide_eq_true _)). vm_compute. reflexivity.
  - vm_compute. reflexivity.
Defined.

Section RoundedOff.
Local Open Scope Z_scope.
Import PyFloat.

(** X13. [getRoundedOffPriceByTickSize] on a non-negative binary64 price [m]
    (in units) and a positive tick [t]: the result is the float nearest to
    the exact multiple [t * floor (m / t)]; it is finite, non-negative and
    never above the price; and a price that is an exact multiple of the
    tick is returned unchanged. *)
Theorem getRoundedOffPriceByTickSize_floor t m :
  0 < t -> 0 <= m -> round m 1 = Fin m ->
  getRoundedOffPriceByTickSize (Fin t) (Fin m) = round (t * (m / t)) 1
  /\ (exists r, getRoundedOffPriceByTickSize (Fin t) (Fin m) = Fin r
                /\ 0 <= r <= m)
  /\ (m mod t = 0 -> getRoundedOffPriceByTickSize (Fin t) (Fin m) = Fin m).
Proof.
  intros Ht Hm Hfl. rewrite floor_fin by lia.
  pose proof (Z.mul_div_le m t Ht) as Hle.
  pose proof (Z.div_pos m t Hm Ht) as Hq.
  split; [done|]. split.
  - destruct (round_mono_fin (t * (m / t)) 1 m 1 m) as [E Hr];
      [nia|lia|lia|lia|done|].
    eexists. split; [exact E|lia].
  - intros Hmod. pose proof (Z.div_mod m t ltac:(lia)) as Hdm.
    replace (t * (m / t)) with m by lia. done.
Qed.

Lemma getRoundedOffPriceByTickSize_floor_witness :
  getRoundedOffPriceByTickSize (Fin tick005) (Fin close100)
    = round (tick005 * (close100 / tick005)) 1
  /\ (exists r, getRoundedOffPriceByTickSize (Fin tick005) (Fin close100)
                = Fin r /\ 0 <= r <= close100)
  /\ (close100 mod tick005 = 0 ->
      getRoundedOffPriceByTickSize (Fin tick005) (Fin close100)
      = Fin close100).
Proof.
  apply (getRoundedOffPriceByTickSize_floor tick005 close100).
  - vm_compute. reflexivity.
  - vm_compute. discriminate.
  - vm_compute. reflexivity.
Defined.
End RoundedOff.

(** The strategy's interval, [timedelta(minutes=15)], is 15 minutes. *)
Example timeIntervalMinutes_fifteen : timeIntervalMinutes fifteenMinutes = Some 15%Z.
Proof. vm_compute. reflexivity. Qed.

Lemma elapsed_le (m : nat) (k : Z) :
  (0 < k)%Z -> Z.to_nat (Z.of_nat m mod k) <= m.
Proof.
  intros Hk. pose proof (Z.mod_pos_bound (Z.of_nat m) k Hk).
  pose proof (Z.mod_le (Z.of_nat m) k ltac:(lia) Hk). lia.
Qed.

(** X14. [getRoundedDateTime] for an interval of [k > 0] whole minutes: the
    result has the hour of the argument, a minute that is a multiple of [k],
    at most the argument's and less than [k] below it, and no seconds or
    microseconds; it is not later than the argument; and rounding it again
    changes nothing. *)
Theorem getRoundedDateTime_rounds_down t i k :
  timeIntervalMinutes i = Some k -> (0 < k)%Z ->
  exists r, getRoundedDateTime t i = Some r
    /\ hour r = hour t
    /\ (Z.of_nat (minute r) mod k = 0)%Z
    /\ minute r <= minute t
    /\ (Z.of_nat (minute t) < Z.of_nat (minute r) + k)%Z
    /\ second r = 0 /\ microsecond r = 0
    /\ time_ltb t r = false
    /\ getRoundedDateTime r i = Some r.
Proof.
  intros Hi Hk. unfold getRoundedDateTime. rewrite Hi.
  destruct (Z.eqb_spec k 0) as [?|_]; [lia|]. cbv zeta.
  eexists. split; [reflexivity|]. cbn [hour minute second microsecond].
  pose proof (elapsed_le (minute t) k Hk) as Hle.
  pose proof (Z.mod_pos_bound (Z.of_nat (minute t)) k Hk) as Hb.
  pose proof (Z.div_mod (Z.of_nat (minute t)) k ltac:(lia)) as Hdm.
  set (e := Z.to_nat (Z.of_nat (minute t) mod k)) in *.
  assert (He : Z.of_nat e = (Z.of_nat (minute t) mod k)%Z) by lia.
  assert (Hm : Z.of_nat (minute t - e)
               = (k * (Z.of_nat (minute t) / k))%Z) by lia.
  assert (Hz : (Z.of_nat (minute t - e) mod k = 0)%Z).
  { rewrite Hm, Z.mul_comm. apply Z.mod_mul. lia. }
  repeat split; try lia.
  - destruct (time_ltb t _) eqn:E; [|done].
    apply time_ltb_spec in E. cbn [hour minute second microsecond] in E. lia.
  - rewrite Hz. cbn. by rewrite Nat.sub_0_r.
Qed.

Lemma getRoundedDateTime_rounds_down_witness :
  exists r, getRoundedDateTime (mkTime 10 44 59 7) fifteenMinutes = Some r
    /\ hour r = hour (mkTime 10 44 59 7)
    /\ (Z.of_nat (minute r) mod 15 = 0)%Z
    /\ minute r <= minute (mkTime 10 44 59 7)
    /\ (Z.of_nat (minute (mkTime 10 44 59 7)) < Z.of_nat (minute r) + 15)%Z
    /\ second r = 0 /\ microsecond r = 0
    /\ time_ltb (mkTime 10 44 59 7) r = false
    /\ getRoundedDateTime r fifteenMinutes = Some r.
Proof.
  apply (getRoundedDateTime_rounds_down (mkTime 10 44 59 7) fifteenMinutes
           15%Z).
  - vm_compute. reflexivity.
  - lia.
Defined.

Example getRoundedDateTime_10_44 :
  getRoundedDateTime (mkTime 10 44 59 7) fifteenMinutes = Some (hm 10 30).
Proof. vm_compute. reflexivity. Qed.

Section ShortInterval.
Local Open Scope Z_scope.
Import PyFloat.

Lemma of_Z_60 : of_Z 60 = Fin (60 * one_ulps).
Proof. vm_compute. reflexivity. Qed.

Lemma div_60 a :
  div (Fin a) (of_Z 60) = round (a * one_ulps) (60 * one_ulps).
Proof.
  rewrite of_Z_60. pose proof one_ulps_pos. unfold div.
  destruct (Z.eqb_spec (60 * one_ulps) 0); [lia|].
  destruct (Z.ltb_spec (60 * one_ulps) 0); [lia|done].
Qed.

Lemma just_below_a_minute :
  exists m0 y0,
    round (59999999 * one_ulps) 1000000 = Fin m0
    /\ round (m0 * one_ulps) (60 * one_ulps) = Fin y0
    /\ y0 < one_ulps.
Proof.
  eexists _, _. split; [vm_compute; reflexivity|].
  split; [vm_compute; reflexivity|]. vm_compute. reflexivity.
Qed.

(** X15. An interval shorter than one minute makes [getRoundedDateTime] raise
    (the minute is taken modulo zero). *)
Theorem getRoundedDateTime_short_interval t (i : N) :
  (i < 60000000)%N -> getRoundedDateTime t i = None.
Proof.
  intros Hi. pose proof one_ulps_pos as HU.
  destruct just_below_a_minute as (m0 & y0 & E1 & E2 & Hy0).
  assert (Hk : timeIntervalMinutes i = Some 0).
  { unfold timeIntervalMinutes, of_ratio.
    destruct (round_mono_fin (Z.of_N i * one_ulps) 1000000
                (59999999 * one_ulps) 1000000 m0) as [-> Hx];
      [apply Z.mul_nonneg_nonneg; lia|lia|lia| |done|].
    { apply Z.mul_le_mono_nonneg_r; [lia|].
      apply Z.mul_le_mono_nonneg_r; lia. }
    rewrite div_60.
    generalize dependent (rnd (Z.of_N i * one_ulps) 1000000). intros x Hx.
    destruct (round_mono_fin (x * one_ulps) (60 * one_ulps)
                (m0 * one_ulps) (60 * one_ulps) y0) as [-> Hy];
      [apply Z.mul_nonneg_nonneg; lia|lia|lia| |done|].
    { apply Z.mul_le_mono_nonneg_r; [lia|].
      apply Z.mul_le_mono_nonneg_r; lia. }
    f_equal. apply Z.quot_small. lia. }
  unfold getRoundedDateTime. by rewrite Hk.
Qed.

Lemma getRoundedDateTime_short_interval_witness :
  getRoundedDateTime (hm 10 44) 59999999%N = None.
Proof.
  apply (getRoundedDateTime_short_interval (hm 10 44) 59999999%N).
  reflexivity.
Defined.
End ShortInterval.

